(** * Carbon Tracker: a shallow embedding of [backend.py] and [app.py]

    The development follows the two files of the repository.

    - Part I models the values that cross the Python/MySQL boundary and the
      tables the queries of [backend.py] mention.
    - Part II embeds the methods of [backend.Database].  Every method builds
      the statement the source builds and hands it to a small model of the
      engine, so that what a method sends is a value one can reason about.
    - Part III embeds the helpers and the button handlers of [app.py],
      including the read cache installed by [st.cache_data(ttl=30)].
    - Part IV states and proves the properties.

    Conventions.  Python [int] is [Z]; [float] is [pyfloat], a rational or
    NaN (rounding plays no role in what is proved here); [str] is [string];
    [Optional[t]] is [option t].  A DATE column holds the ISO-8601 text of
    the date ([YYYY-MM-DD]), on which the order of MySQL is the
    lexicographic order of [String.leb].  An exception is a [Raise] result. *)

From Stdlib Require Import ZArith QArith Qcanon Lia.
From stdpp Require Import base numbers list sorting strings pretty gmap.
From Equations Require Import Equations.

Local Open Scope Z_scope.

(* ================================================================= *)
(** * Part I.  Values and tables *)
(* ================================================================= *)

(** ** Python values *)

Inductive pyfloat :=
  | FNum (q : Qc)
  | FNaN.

Inductive pyval :=
  | PNone
  | PInt (n : Z)
  | PFloat (x : pyfloat)
  | PStr (s : string).

Inductive exn :=
  | ValueError (msg : string)
  | KeyError (key : string)
  | ZeroDivisionError
  | ProgrammingError (msg : string)
  | DatabaseError (msg : string).

Inductive result (A : Type) :=
  | Ok (a : A)
  | Raise (e : exn).
Arguments Ok {A} a.
Arguments Raise {A} e.

#[global] Instance pyfloat_eq_dec : EqDecision pyfloat.
Proof. solve_decision. Defined.
#[global] Instance pyval_eq_dec : EqDecision pyval.
Proof. solve_decision. Defined.

(** [bool(v)]: the truth value Python gives to [v]. *)
Definition py_bool (v : pyval) : bool :=
  match v with
  | PNone => false
  | PInt n => negb (n =? 0)
  | PFloat (FNum q) => negb (bool_decide (q = 0%Qc))
  | PFloat FNaN => true
  | PStr s => negb (bool_decide (s = ""))
  end.

(** Truth value of an [Optional[int]] and of an [Optional[str]], as tested by
    [if user_id:] and [if date_from:]. *)
Definition truthy_int (o : option Z) : bool :=
  match o with Some n => py_bool (PInt n) | None => py_bool PNone end.

Definition truthy_str (o : option string) : bool :=
  match o with Some s => py_bool (PStr s) | None => py_bool PNone end.

Definition py_of_int (o : option Z) : pyval :=
  match o with Some n => PInt n | None => PNone end.

(** ** Tables

    One record per table, one field per column the queries name. *)

Record UserRow := {
  U_UserID : Z;
  U_Name : string;
  U_Email : string;
  U_Password : string;
  U_CarbonGoal : option Qc;
  U_RegistrationDate : string }.

Record CategoryRow := {
  C_CategoryID : Z;
  C_CategoryName : string }.

Record ActivityRow := {
  A_ActivityID : Z;
  A_Name : string;
  A_UnitOfMeasure : string;
  A_CategoryID : Z }.

Record EmissionFactorRow := {
  EF_ActivityID : Z;
  EF_EmissionValue : Qc }.

Record LocationRow := {
  L_LocationID : Z;
  L_City : string;
  L_Country : string }.

Record LogRow := {
  AL_LogID : Z;
  AL_UserID : Z;
  AL_ActivityID : Z;
  AL_LocationID : option Z;
  AL_Date : string;
  AL_Quantity : Qc;
  AL_CalculatedEmission : option Qc }.

(** The database: its tables in storage order and the two AUTO_INCREMENT
    counters the inserts of [backend.py] draw from. *)
Record Store := {
  Users : list UserRow;
  Categories : list CategoryRow;
  Activities : list ActivityRow;
  EmissionFactors : list EmissionFactorRow;
  Locations : list LocationRow;
  ActivityLogs : list LogRow;
  next_UserID : Z;
  next_LogID : Z }.

(** The part of the schema that lives in the database and not in this
    repository: the BEFORE INSERT trigger of ActivityLogs, the constraints
    the two written tables enforce, the three stored routines, and the
    collation of the column Locations.City, as the order [ORDER BY City]
    sorts by: [City_collation a b] holds when [a] sorts no later than
    [b]. *)
Class Schema := {
  before_insert_log : Store → LogRow → LogRow;
  log_violation : Store → LogRow → option string;
  user_violation : Store → UserRow → option string;
  GetMonthlyEmissionsByCategory :
    Store → Z → Z → Z → list (list (string * Qc));
  GetActivityRankingByEmission :
    Store → Z → string → string → list (list (string * string * Qc));
  CheckIfUserMetGoal : Store → Z → Z → Z → option pyval;
  City_collation : string → string → bool }.

(** ** Sorting

    Top-down merge sort; ties are taken from the left run. *)

Section Msort.
Context {A : Type} (leb : A → A → bool).

Fixpoint merge (l1 : list A) : list A → list A :=
  fix merge_aux (l2 : list A) : list A :=
    match l1, l2 with
    | [], _ => l2
    | _, [] => l1
    | x1 :: l1', x2 :: l2' =>
        if leb x1 x2 then x1 :: merge l1' l2 else x2 :: merge_aux l2'
    end.

Equations? msort (l : list A) : list A by wf (length l) lt :=
  msort [] := [];
  msort [x] := [x];
  msort (x :: y :: l) :=
    let h := Nat.div2 (length (x :: y :: l)) in
    merge (msort (take h (x :: y :: l))) (msort (drop h (x :: y :: l))).
Proof.
  - rewrite length_take. simpl length.
    pose proof (Nat.le_div2_diag_l (length l)) as Hd. clear msort h.
    revert Hd. generalize (Nat.div2 (length l)). intros d Hd. lia.
  - rewrite length_drop. simpl length. clear msort h.
    generalize (Nat.div2 (length l)). intros d. lia.
Qed.

(** Two elements are tied when each is below the other. *)
Definition tied (x y : A) : bool := leb x y && leb y x.
End Msort.

(** ** The [result] monad *)

#[global] Instance result_ret : MRet result := λ A a, Ok a.
#[global] Instance result_bind : MBind result := λ A B f m,
  match m with Ok a => f a | Raise e => Raise e end.
#[global] Instance result_fmap : FMap result := λ A B f m,
  match m with Ok a => Ok (f a) | Raise e => Raise e end.

(* ================================================================= *)
(** * Part II.  [backend.py]: the data access layer *)
(* ================================================================= *)

(** ** Result rows

    The cursors are opened with [dictionary=True]: a row is a mapping from
    the selected column names to values.  [LogView] is the row of
    [list_logs]; its fields are the eight selected columns. *)

Record LogView := {
  LogID : Z;
  UserName : string;
  ActivityName : string;
  Date : string;
  Quantity : Qc;
  CalculatedEmission : option Qc;
  City : option string;
  Country : option string }.

Record UserView := {
  uv_UserID : Z;
  uv_Name : string;
  uv_Email : string;
  uv_CarbonGoal : option Qc;
  uv_RegistrationDate : string }.

Record ActivityView := {
  av_ActivityID : Z;
  av_Name : string;
  av_UnitOfMeasure : string;
  av_CategoryName : string;
  av_EmissionValue : option Qc }.

(** ** The SELECT of [list_logs]

    The text of the query is fixed up to the conditions appended to
    [WHERE 1=1]; each appended condition carries one [%s] placeholder. *)

Inductive log_cond :=
  | UserID_eq   (* " AND AL.UserID=%s"  *)
  | Date_ge     (* " AND AL.Date >= %s" *)
  | Date_le.    (* " AND AL.Date <= %s" *)

(** A condition with its placeholder bound.  A comparison with NULL holds
    of no row.  Operands of another type than the column are refused:
    [list_logs] never sends them. *)
Definition bind_cond (c : log_cond) (v : pyval) : result (LogRow → bool) :=
  match c, v with
  | _, PNone => Ok (λ _, false)
  | UserID_eq, PInt n => Ok (λ al, bool_decide (AL_UserID al = n))
  | Date_ge, PStr d => Ok (λ al, String.leb d (AL_Date al))
  | Date_le, PStr d => Ok (λ al, String.leb (AL_Date al) d)
  | _, _ => Raise (DatabaseError "operand type")
  end.

(** Placeholders are bound by position; the connector refuses a tuple whose
    length differs from the number of placeholders. *)
Fixpoint bind_where (cs : list log_cond) (args : list pyval)
  : result (LogRow → bool) :=
  match cs, args with
  | [], [] => Ok (λ _, true)
  | c :: cs', v :: args' =>
      p ← bind_cond c v;
      q ← bind_where cs' args';
      mret (λ al, p al && q al)
  | _, _ => Raise (ProgrammingError "Not all parameters were used")
  end.

(** [LEFT JOIN]: a left row without a partner is kept once, with NULLs. *)
Definition left_join {A} (l : list A) : list (option A) :=
  match l with [] => [None] | _ => Some <$> l end.

(** [FROM ActivityLogs AL JOIN Users U ... JOIN Activities A ...
     LEFT JOIN Locations L ...] *)
Definition logs_joined (db : Store)
  : list (LogRow * UserRow * ActivityRow * option LocationRow) :=
  al ← ActivityLogs db;
  u ← filter (λ u, U_UserID u = AL_UserID al) (Users db);
  a ← filter (λ a, A_ActivityID a = AL_ActivityID al) (Activities db);
  l ← left_join
        (filter (λ l, Some (L_LocationID l) = AL_LocationID al) (Locations db));
  [(al, u, a, l)].

(** [ORDER BY AL.Date DESC, AL.LogID DESC]: [x] is placed no later than [y]. *)
Definition date_id_desc (x y : LogRow) : bool :=
  String.ltb (AL_Date y) (AL_Date x)
  || (bool_decide (AL_Date x = AL_Date y) && (AL_LogID y <=? AL_LogID x)).

Definition log_of (j : LogRow * UserRow * ActivityRow * option LocationRow)
  : LogRow := j.1.1.1.

(** The SELECT list. *)
Definition log_view (j : LogRow * UserRow * ActivityRow * option LocationRow)
  : LogView :=
  let '(al, u, a, l) := j in
  {| LogID := AL_LogID al;
     UserName := U_Name u;
     ActivityName := A_Name a;
     Date := AL_Date al;
     Quantity := AL_Quantity al;
     CalculatedEmission := AL_CalculatedEmission al;
     City := L_City <$> l;
     Country := L_Country <$> l |}.

Definition select_logs (db : Store) (where_ : LogRow → bool) : list LogView :=
  log_view <$>
    msort (λ x y, date_id_desc (log_of x) (log_of y))
      (filter (λ j, where_ (log_of j)) (logs_joined db)).

(** [cur.execute(base, tuple(args)); cur.fetchall()] *)
Definition execute_select_logs (db : Store)
    (base : list log_cond) (args : list pyval) : result (list LogView) :=
  where_ ← bind_where base args;
  mret (select_logs db where_).

(** [Database.list_logs]: the conditions and the arguments it accumulates. *)
Definition list_logs_query
    (user_id : option Z) (date_from date_to : option string)
  : list log_cond * list pyval :=
  let base := [] in
  let args := [] in
  let '(base, args) :=
    if truthy_int user_id
    then (base ++ [UserID_eq], args ++ [py_of_int user_id])
    else (base, args) in
  let '(base, args) :=
    if truthy_str date_from
    then (base ++ [Date_ge], args ++ [from_option PStr PNone date_from])
    else (base, args) in
  let '(base, args) :=
    if truthy_str date_to
    then (base ++ [Date_le], args ++ [from_option PStr PNone date_to])
    else (base, args) in
  (base, args).

Definition list_logs (db : Store)
    (user_id : option Z) (date_from date_to : option string)
  : result (list LogView) :=
  let '(base, args) := list_logs_query user_id date_from date_to in
  execute_select_logs db base args.

(** ** The INSERT of [add_log] *)

Inductive log_column :=
  | ColLogID | ColUserID | ColActivityID | ColLocationID
  | ColDate | ColQuantity | ColCalculatedEmission.

#[global] Instance log_column_eq_dec : EqDecision log_column.
Proof. solve_decision. Defined.

(** [INSERT INTO ActivityLogs (columns) VALUES (%s, ...)] with its tuple. *)
Record insert_log := {
  ins_columns : list log_column;
  ins_values : list pyval }.

(** The value an INSERT gives to a column, if it names the column. *)
Fixpoint supplied (c : log_column) (cols : list log_column) (vals : list pyval)
  : option pyval :=
  match cols, vals with
  | c' :: cols', v :: vals' =>
      if decide (c = c') then Some v else supplied c cols' vals'
  | _, _ => None
  end.

Definition int_not_null (o : option pyval) : result Z :=
  match o with
  | Some (PInt n) => Ok n
  | _ => Raise (DatabaseError "integer column cannot be null")
  end.

Definition int_or_null (o : option pyval) : result (option Z) :=
  match o with
  | None | Some PNone => Ok None
  | Some (PInt n) => Ok (Some n)
  | _ => Raise (DatabaseError "integer column")
  end.

Definition date_not_null (o : option pyval) : result string :=
  match o with
  | Some (PStr s) => Ok s
  | _ => Raise (DatabaseError "date column")
  end.

Definition num_not_null (o : option pyval) : result Qc :=
  match o with
  | Some (PFloat (FNum q)) => Ok q
  | Some (PInt n) => Ok (Qc_of_Z n)
  | _ => Raise (DatabaseError "numeric column")
  end.

Definition num_or_null (o : option pyval) : result (option Qc) :=
  match o with
  | None | Some PNone => Ok None
  | Some (PFloat (FNum q)) => Ok (Some q)
  | Some (PInt n) => Ok (Some (Qc_of_Z n))
  | _ => Raise (DatabaseError "numeric column")
  end.

(** The row an INSERT proposes, before the trigger runs: a column the
    statement does not name takes its default, the next AUTO_INCREMENT
    value for LogID and NULL for a nullable column. *)
Definition proposed_log (db : Store) (st : insert_log) : result LogRow :=
  let cols := ins_columns st in
  let vals := ins_values st in
  if bool_decide (length cols = length vals) then
    id ← match supplied ColLogID cols vals with
         | None | Some PNone => Ok (next_LogID db)
         | o => int_not_null o
         end;
    u ← int_not_null (supplied ColUserID cols vals);
    a ← int_not_null (supplied ColActivityID cols vals);
    l ← int_or_null (supplied ColLocationID cols vals);
    d ← date_not_null (supplied ColDate cols vals);
    q ← num_not_null (supplied ColQuantity cols vals);
    e ← num_or_null (supplied ColCalculatedEmission cols vals);
    mret {| AL_LogID := id; AL_UserID := u; AL_ActivityID := a;
            AL_LocationID := l; AL_Date := d; AL_Quantity := q;
            AL_CalculatedEmission := e |}
  else Raise (ProgrammingError "Not all parameters were used").

Definition with_log (db : Store) (row : LogRow) : Store :=
  {| Users := Users db; Categories := Categories db;
     Activities := Activities db; EmissionFactors := EmissionFactors db;
     Locations := Locations db;
     ActivityLogs := ActivityLogs db ++ [row];
     next_UserID := next_UserID db;
     next_LogID := Z.max (next_LogID db) (AL_LogID row + 1) |}.

(** [cur.execute(q, values); cur.lastrowid].  The statement is
    autocommitted: it either stores the row the trigger returned or leaves
    the database as it was. *)
Definition execute_insert_log `{Schema} (db : Store) (st : insert_log)
  : result Z * Store :=
  match proposed_log db st with
  | Raise e => (Raise e, db)
  | Ok new =>
      let row := before_insert_log db new in
      match log_violation db row with
      | Some msg => (Raise (DatabaseError msg), db)
      | None => (Ok (AL_LogID row), with_log db row)
      end
  end.

(** [Database.add_log]: the statement it sends. *)
Definition add_log_statement (user_id activity_id : Z) (date : string)
    (qty : pyfloat) (location_id : option Z) : insert_log :=
  {| ins_columns :=
       [ColUserID; ColActivityID; ColLocationID; ColDate; ColQuantity];
     ins_values :=
       [PInt user_id; PInt activity_id; py_of_int location_id;
        PStr date; PFloat qty] |}.

Definition add_log `{Schema} (db : Store) (user_id activity_id : Z)
    (date : string) (qty : pyfloat) (location_id : option Z)
  : result Z * Store :=
  execute_insert_log db
    (add_log_statement user_id activity_id date qty location_id).

(** ** [Database.delete_log]

    [DELETE FROM ActivityLogs WHERE LogID=%s], then [cur.rowcount]. *)
Definition delete_log (db : Store) (log_id : Z) : Z * Store :=
  let kept := filter (λ al, AL_LogID al ≠ log_id) (ActivityLogs db) in
  (Z.of_nat (length (ActivityLogs db)) - Z.of_nat (length kept),
   {| Users := Users db; Categories := Categories db;
      Activities := Activities db; EmissionFactors := EmissionFactors db;
      Locations := Locations db;
      ActivityLogs := kept;
      next_UserID := next_UserID db;
      next_LogID := next_LogID db |}).

(** ** Master data *)

Definition user_view (u : UserRow) : UserView :=
  {| uv_UserID := U_UserID u; uv_Name := U_Name u; uv_Email := U_Email u;
     uv_CarbonGoal := U_CarbonGoal u;
     uv_RegistrationDate := U_RegistrationDate u |}.

(** [SELECT ... FROM Users ORDER BY UserID] *)
Definition list_users (db : Store) : list UserView :=
  user_view <$> msort (λ x y, U_UserID x <=? U_UserID y) (Users db).

Definition with_user (db : Store) (row : UserRow) : Store :=
  {| Users := Users db ++ [row]; Categories := Categories db;
     Activities := Activities db; EmissionFactors := EmissionFactors db;
     Locations := Locations db;
     ActivityLogs := ActivityLogs db;
     next_UserID := Z.max (next_UserID db) (U_UserID row + 1);
     next_LogID := next_LogID db |}.

(** [Database.add_user]: [INSERT INTO Users (Name, Email, Password,
    CarbonGoal, RegistrationDate)]; NaN is not a value of the column. *)
Definition add_user `{Schema} (db : Store) (name email password : string)
    (carbon_goal : option pyfloat) (reg_date : string) : result Z * Store :=
  match
    match carbon_goal with
    | None => Ok None
    | Some (FNum q) => Ok (Some q)
    | Some FNaN => Raise (DatabaseError "numeric column")
    end
  with
  | Raise e => (Raise e, db)
  | Ok goal =>
      let row := {| U_UserID := next_UserID db; U_Name := name;
                    U_Email := email; U_Password := password;
                    U_CarbonGoal := goal;
                    U_RegistrationDate := reg_date |} in
      match user_violation db row with
      | Some msg => (Raise (DatabaseError msg), db)
      | None => (Ok (U_UserID row), with_user db row)
      end
  end.

(** [SELECT ... FROM Activities A JOIN Categories C ...
     LEFT JOIN EmissionFactors EF ... ORDER BY A.ActivityID] *)
Definition list_activities (db : Store) : list ActivityView :=
  (λ j : ActivityRow * CategoryRow * option EmissionFactorRow,
     let '(a, c, ef) := j in
     {| av_ActivityID := A_ActivityID a; av_Name := A_Name a;
        av_UnitOfMeasure := A_UnitOfMeasure a;
        av_CategoryName := C_CategoryName c;
        av_EmissionValue := EF_EmissionValue <$> ef |}) <$>
  msort (λ x y, A_ActivityID x.1.1 <=? A_ActivityID y.1.1)
    (a ← Activities db;
     c ← filter (λ c, A_CategoryID a = C_CategoryID c) (Categories db);
     ef ← left_join
            (filter (λ ef, EF_ActivityID ef = A_ActivityID a)
               (EmissionFactors db));
     [(a, c, ef)]).

(** [SELECT LocationID, City, Country FROM Locations ORDER BY City] *)
Definition list_locations `{Schema} (db : Store) : list LocationRow :=
  msort (λ x y, City_collation (L_City x) (L_City y)) (Locations db).

(** ** Procedures and functions *)

(** [for r in cur.stored_results(): results = r.fetchall()] keeps the last
    result set, and the empty list when there is none. *)
Definition last_result_set {A} (sets : list (list A)) : list A :=
  foldl (λ _ r, r) [] sets.

Definition monthly_emissions_by_category `{Schema} (db : Store)
    (user_id year month : Z) : list (string * Qc) :=
  last_result_set (GetMonthlyEmissionsByCategory db user_id year month).

Definition activity_ranking `{Schema} (db : Store)
    (user_id : Z) (start_date end_date : string)
  : list (string * string * Qc) :=
  last_result_set (GetActivityRankingByEmission db user_id start_date end_date).

(** The result set of [SELECT CheckIfUserMetGoal(%s,%s,%s)]: one row of one
    column for the scalar the function produced, no row if it produced
    none; [cur.fetchone()] is its first row or [None]. *)
Definition select_CheckIfUserMetGoal `{Schema} (db : Store)
    (user_id year month : Z) : list (list pyval) :=
  match CheckIfUserMetGoal db user_id year month with
  | Some v => [[v]]
  | None => []
  end.

Definition fetchone {A} (rows : list A) : option A := head rows.

(** Truth value of the fetched row: [None] and the empty tuple are false. *)
Definition row_truthy (row : option (list pyval)) : bool :=
  match row with Some (_ :: _) => true | _ => false end.

(** [Database.user_met_goal]: [bool(row[0]) if row else None]. *)
Definition user_met_goal `{Schema} (db : Store) (user_id year month : Z)
  : option bool :=
  let row := fetchone (select_CheckIfUserMetGoal db user_id year month) in
  if row_truthy row
  then py_bool <$> (row ≫= head)
  else None.

(* ================================================================= *)
(** * Part III.  [app.py]: the presentation layer *)
(* ================================================================= *)

(** A [DataFrame] is the list of its rows, in positional order;
    [_safe_df] builds it from the fetched rows and [df.empty] tests it for
    having none. *)
Definition _safe_df {A} (rows : list A) : list A := rows.

Definition df_empty {A} (df : list A) : bool :=
  match df with [] => true | _ => false end.

(** ** Pagination *)

(** [a // b] on Python integers. *)
Definition floordiv (a b : Z) : result Z :=
  if b =? 0 then Raise ZeroDivisionError else Ok (a / b).

(** [df.iloc[start:stop]]: a negative bound counts from the end and both
    bounds are clipped to the frame. *)
Definition iloc {A} (df : list A) (start stop : Z) : list A :=
  let n := Z.of_nat (length df) in
  let clip i := if i <? 0 then Z.max 0 (i + n) else Z.min i n in
  take (Z.to_nat (clip stop - clip start)) (drop (Z.to_nat (clip start)) df).

Definition _paginate_df {A} (df : list A) (page page_size : Z)
  : result (list A * Z) :=
  if df_empty df then Ok (df, 0)
  else
    total_pages ← floordiv (Z.of_nat (length df) + page_size - 1) page_size;
    let page := Z.max 1 (Z.min page total_pages) in
    let start := (page - 1) * page_size in
    let end_ := start + page_size in
    mret (iloc df start end_, total_pages).

(** ** Sorting

    [df.sort_values(by, ascending=..., kind="mergesort")] with the default
    [na_position="last"]: the rows whose key is missing keep their order
    and go last; the others are sorted by a stable sort, and for a
    descending sort pandas reverses them, sorts them in ascending order and
    reverses the outcome. *)
Section SortValues.
Context {A K : Type} (key : A → option K) (leb : K → K → bool).

(** The order of the rows that have a key; written for all rows, a
    missing key counting as the largest, though the sort below only
    compares rows that have one. *)
Definition key_leb (x y : A) : bool :=
  match key x, key y with
  | Some a, Some b => leb a b
  | _, None => true
  | None, Some _ => false
  end.

Definition sort_values_by (ascending : bool) (df : list A) : list A :=
  let non_nans := filter (λ r, is_Some (key r)) df in
  let nans := filter (λ r, key r = None) df in
  (if ascending then msort key_leb non_nans
   else reverse (msort key_leb (reverse non_nans))) ++ nans.
End SortValues.

(** The columns of [df_logs], the options of the "Sort by" box. *)
Inductive column :=
  | col_LogID | col_UserName | col_ActivityName | col_Date
  | col_Quantity | col_CalculatedEmission | col_City | col_Country.

Definition Qc_leb (a b : Qc) : bool := bool_decide (a ≤ b)%Qc.

Definition sort_values (by_ : column) (ascending : bool) (df : list LogView)
  : list LogView :=
  match by_ with
  | col_LogID => sort_values_by (λ r, Some (LogID r)) Z.leb ascending df
  | col_UserName =>
      sort_values_by (λ r, Some (UserName r)) String.leb ascending df
  | col_ActivityName =>
      sort_values_by (λ r, Some (ActivityName r)) String.leb ascending df
  | col_Date => sort_values_by (λ r, Some (Date r)) String.leb ascending df
  | col_Quantity => sort_values_by (λ r, Some (Quantity r)) Qc_leb ascending df
  | col_CalculatedEmission =>
      sort_values_by CalculatedEmission Qc_leb ascending df
  | col_City => sort_values_by City String.leb ascending df
  | col_Country => sort_values_by Country String.leb ascending df
  end.

(** The value of a row in a column, for comparing keys across columns of
    different types. *)
Inductive cell :=
  | cell_int (n : Z)
  | cell_float (x : pyfloat)
  | cell_str (s : string).

#[global] Instance cell_eq_dec : EqDecision cell.
Proof. solve_decision. Defined.

Definition sort_key (by_ : column) (r : LogView) : option cell :=
  match by_ with
  | col_LogID => Some (cell_int (LogID r))
  | col_UserName => Some (cell_str (UserName r))
  | col_ActivityName => Some (cell_str (ActivityName r))
  | col_Date => Some (cell_str (Date r))
  | col_Quantity => Some (cell_float (FNum (Quantity r)))
  | col_CalculatedEmission => cell_float ∘ FNum <$> CalculatedEmission r
  | col_City => cell_str <$> City r
  | col_Country => cell_str <$> Country r
  end.

(** ** The interface events the handlers emit *)

Inductive ui_event :=
  | warning_page_reset (total_pages : Z)
  | warning_enter_valid_LogID
  | toast_deleted (del_id : Z)
  | info_no_row_deleted
  | error_delete_failed (e : exn)
  | toast_inserted (new_id : Z)
  | error_insert_failed (e : exn)
  | warning_row_failed (ie : exn)
  | toast_imported (inserted : Z)
  | error_csv_columns
  | error_select_user
  | warning_fields_required
  | toast_user_created (uid : Z)
  | error_create_user_failed (e : exn)
  | rerun.

#[global] Instance exn_eq_dec : EqDecision exn.
Proof. solve_decision. Defined.
#[global] Instance ui_event_eq_dec : EqDecision ui_event.
Proof. solve_decision. Defined.

(** The Logs tab: sort, paginate, and go back to the first page when the
    requested page is past the last one. *)
Definition logs_tab_view (df_logs : list LogView) (page_size page : Z)
    (sort_col : column) (ascending : bool)
  : result (list LogView * Z * list ui_event) :=
  let sdf := sort_values sort_col ascending df_logs in
  '(view, total_pages) ← _paginate_df sdf page page_size;
  if negb (total_pages =? 0) && (page >? total_pages) then
    '(view, total_pages) ← _paginate_df sdf 1 page_size;
    mret (view, total_pages, [warning_page_reset total_pages])
  else mret (view, total_pages, []).

(** ** The read cache

    The seven read wrappers of [app.py] are decorated with
    [st.cache_data(ttl=30)].  A call is identified by the wrapper and its
    arguments. *)

Inductive read_call :=
  | load_users
  | load_activities
  | load_locations
  | load_logs (user_id : option Z) (dfrom dto : option string)
  | proc_monthly_emissions (user_id year month : Z)
  | proc_ranking (user_id : Z) (start_date end_date : string)
  | func_goal (user_id year month : Z).

Inductive read_value :=
  | users_rows (rows : list UserView)
  | activities_rows (rows : list ActivityView)
  | locations_rows (rows : list LocationRow)
  | logs_rows (rows : list LogView)
  | monthly_rows (rows : list (string * Qc))
  | ranking_rows (rows : list (string * string * Qc))
  | goal_value (met : option bool).

#[global] Instance read_call_eq_dec : EqDecision read_call.
Proof. solve_decision. Defined.

#[global] Instance read_call_countable : Countable read_call.
Proof.
  refine (inj_countable'
    (λ c, match c with
          | load_users => inl (inl 0%nat)
          | load_activities => inl (inl 1%nat)
          | load_locations => inl (inl 2%nat)
          | load_logs u f t => inl (inr (u, f, t))
          | proc_monthly_emissions u y m => inr (inl (inl (u, y, m)))
          | proc_ranking u s e => inr (inl (inr (u, s, e)))
          | func_goal u y m => inr (inr (u, y, m))
          end)
    (λ x, match x with
          | inl (inl 0%nat) => load_users
          | inl (inl 1%nat) => load_activities
          | inl (inl _) => load_locations
          | inl (inr (u, f, t)) => load_logs u f t
          | inr (inl (inl (u, y, m))) => proc_monthly_emissions u y m
          | inr (inl (inr (u, s, e))) => proc_ranking u s e
          | inr (inr (u, y, m)) => func_goal u y m
          end) _).
  by intros [].
Defined.

(** The calls that reach the data access layer. *)
Inductive dal_call :=
  | Read (c : read_call)
  | Call_add_user (name email password : string)
      (carbon_goal : option pyfloat) (reg_date : string)
  | Call_add_log (user_id activity_id : Z) (date : string) (qty : pyfloat)
      (location_id : option Z)
  | Call_delete_log (log_id : Z).

Definition is_write (c : dal_call) : bool :=
  match c with Read _ => false | _ => true end.

(** The state of a session: the database, the cache with the time each
    entry was fetched, the calls made to the data access layer so far and
    the events shown to the user. *)
Record World := {
  db : Store;
  cache : gmap read_call (read_value * Z);
  calls : list dal_call;
  ui : list ui_event }.

Definition emit (e : ui_event) (w : World) : World :=
  {| db := db w; cache := cache w; calls := calls w; ui := ui w ++ [e] |}.

Definition called (c : dal_call) (db' : Store) (w : World) : World :=
  {| db := db'; cache := cache w; calls := calls w ++ [c]; ui := ui w |}.

(** [st.cache_data.clear()] *)
Definition cache_data_clear (w : World) : World :=
  {| db := db w; cache := ∅; calls := calls w; ui := ui w |}.

Definition ttl : Z := 30.

(** What each wrapper calls on a miss. *)
Definition query `{Schema} (db : Store) (c : read_call) : result read_value :=
  match c with
  | load_users => Ok (users_rows (list_users db))
  | load_activities => Ok (activities_rows (list_activities db))
  | load_locations => Ok (locations_rows (list_locations db))
  | load_logs user_id dfrom dto => logs_rows <$> list_logs db user_id dfrom dto
  | proc_monthly_emissions user_id year month =>
      Ok (monthly_rows (monthly_emissions_by_category db user_id year month))
  | proc_ranking user_id start_date end_date =>
      Ok (ranking_rows (activity_ranking db user_id start_date end_date))
  | func_goal user_id year month =>
      Ok (goal_value (user_met_goal db user_id year month))
  end.

(** A decorated call at time [now]: an entry younger than [ttl] is
    returned as it is; otherwise the wrapper runs, and its value, unless it
    raised, is stored with the time of the call. *)
Definition cached `{Schema} (now : Z) (c : read_call) (w : World)
  : result read_value * World :=
  let miss :=
    let r := query (db w) c in
    (r, {| db := db w;
           cache := match r with
                    | Ok v => <[c := (v, now)]> (cache w)
                    | Raise _ => cache w
                    end;
           calls := calls w ++ [Read c];
           ui := ui w |}) in
  match cache w !! c with
  | Some (v, fetched) => if now <? fetched + ttl then (Ok v, w) else miss
  | None => miss
  end.

(** ** The write handlers

    Each handler is the body run when its button is pressed, as a function
    on the session state. *)

(** "Delete": [del_id] is the number typed in the LogID box. *)
Definition on_delete (del_id : Z) (w : World) : World :=
  if del_id <=? 0 then emit warning_enter_valid_LogID w
  else
    let '(deleted, db') := delete_log (db w) del_id in
    let w := called (Call_delete_log del_id) db' w in
    if py_bool (PInt deleted) then
      emit rerun (cache_data_clear (emit (toast_deleted del_id) w))
    else emit info_no_row_deleted w.

(** "Add Log": shown once a user is picked; [qty] and [log_date] come from
    the form. *)
Definition on_add_log `{Schema} (ins_user_id activity_id : Z)
    (log_date : string) (qty : pyfloat) (location_id : option Z) (w : World)
  : World :=
  let '(r, db') := add_log (db w) ins_user_id activity_id log_date qty
                           location_id in
  let w := called (Call_add_log ins_user_id activity_id log_date qty
                                location_id) db' w in
  match r with
  | Ok new_id => cache_data_clear (emit (toast_inserted new_id) w)
  | Raise e => emit (error_insert_failed e) w
  end.

(** "Add User" *)
Definition on_add_user `{Schema} (u_name u_email u_pass : string)
    (u_goal : pyfloat) (u_reg : string) (w : World) : World :=
  if negb (py_bool (PStr u_name)) || negb (py_bool (PStr u_email))
     || negb (py_bool (PStr u_pass))
  then emit warning_fields_required w
  else
    let '(r, db') := add_user (db w) u_name u_email u_pass (Some u_goal)
                              u_reg in
    let w := called (Call_add_user u_name u_email u_pass (Some u_goal) u_reg)
                    db' w in
    match r with
    | Ok uid => cache_data_clear (emit (toast_user_created uid) w)
    | Raise e => emit (error_create_user_failed e) w
    end.

(** ** Bulk import *)

(** The conversions of Python that read or print a number in text. *)
Class Builtins := {
  int_of_str : string → option Z;
  float_of_str : string → option pyfloat;
  str_of_float : pyfloat → string }.

(** The frame [pd.read_csv] returns: its column names and its rows, each a
    mapping from column name to value. *)
Record frame := {
  columns : list string;
  rows : list (gmap string cell) }.

(** [r[k]] *)
Definition item (r : gmap string cell) (k : string) : result cell :=
  match r !! k with Some c => Ok c | None => Raise (KeyError k) end.

(** [int(c)]: a float is truncated towards zero. *)
Definition py_int `{Builtins} (c : cell) : result Z :=
  match c with
  | cell_int n => Ok n
  | cell_float (FNum q) => Ok (Z.quot (Qnum q) (Z.pos (Qden q)))
  | cell_float FNaN =>
      Raise (ValueError "cannot convert float NaN to integer")
  | cell_str s =>
      match int_of_str s with
      | Some n => Ok n
      | None => Raise (ValueError "invalid literal for int()")
      end
  end.

(** [float(c)] *)
Definition py_float `{Builtins} (c : cell) : result pyfloat :=
  match c with
  | cell_int n => Ok (FNum (Qc_of_Z n))
  | cell_float x => Ok x
  | cell_str s =>
      match float_of_str s with
      | Some x => Ok x
      | None => Raise (ValueError "could not convert string to float")
      end
  end.

(** [str(c)] *)
Definition py_str `{Builtins} (c : cell) : string :=
  match c with
  | cell_int n => pretty n
  | cell_float x => str_of_float x
  | cell_str s => s
  end.

(** [pd.notna(c)] *)
Definition notna (c : cell) : bool :=
  match c with cell_float FNaN => false | _ => true end.

(** The arguments of the [add_log] call of one row, evaluated in the order
    they are written; the first conversion that raises ends the
    evaluation, before [add_log] is entered. *)
Definition import_args `{Builtins} (df_imp : frame) (r : gmap string cell)
  : result (Z * string * pyfloat * option Z) :=
  activity_id ← item r "ActivityID" ≫= py_int;
  date ← py_str <$> item r "Date";
  qty ← item r "Quantity" ≫= py_float;
  location_id ←
    (if bool_decide ("LocationID" ∈ columns df_imp) then
       c ← item r "LocationID";
       if notna c then Some <$> (item r "LocationID" ≫= py_int)
       else Ok None
     else Ok None);
  mret (activity_id, date, qty, location_id).

(** The body of the [try] of one row. *)
Definition import_row `{Schema, Builtins} (picked_user_id : Z)
    (df_imp : frame) (r : gmap string cell) (w : World)
  : result unit * World :=
  match import_args df_imp r with
  | Raise e => (Raise e, w)
  | Ok (activity_id, date, qty, location_id) =>
      let '(res, db') :=
        add_log (db w) picked_user_id activity_id date qty location_id in
      (res ≫= λ _, Ok (),
       called (Call_add_log picked_user_id activity_id date qty location_id)
              db' w)
  end.

(** [for _, r in df_imp.iterrows(): try: ...; inserted += 1
     except Exception as ie: st.warning(...)] *)
Fixpoint import_loop `{Schema, Builtins} (picked_user_id : Z)
    (df_imp : frame) (todo : list (gmap string cell))
    (inserted : Z) (w : World) : Z * World :=
  match todo with
  | [] => (inserted, w)
  | r :: todo' =>
      match import_row picked_user_id df_imp r w with
      | (Ok _, w') =>
          import_loop picked_user_id df_imp todo' (inserted + 1) w'
      | (Raise ie, w') =>
          import_loop picked_user_id df_imp todo' inserted
            (emit (warning_row_failed ie) w')
      end
  end.

Definition valid_cols : list string := ["ActivityID"; "Date"; "Quantity"].

(** "Import Rows", with the two checks that guard the button. *)
Definition on_import `{Schema, Builtins} (picked_user_id : option Z)
    (df_imp : frame) (w : World) : World :=
  if negb (bool_decide (valid_cols ⊆ columns df_imp)) then
    emit error_csv_columns w
  else
    match picked_user_id with
    | None => emit error_select_user w
    | Some uid =>
        let '(inserted, w) := import_loop uid df_imp (rows df_imp) 0 w in
        cache_data_clear (emit (toast_imported inserted) w)
    end.

(** The four writes of the presentation layer, as one type. *)
Inductive write_action :=
  | Add_user (u_name u_email u_pass : string) (u_goal : pyfloat)
      (u_reg : string)
  | Add_log (ins_user_id activity_id : Z) (log_date : string)
      (qty : pyfloat) (location_id : option Z)
  | Delete_log (del_id : Z)
  | Import_rows (picked_user_id : option Z) (df_imp : frame).

Definition handle `{Schema, Builtins} (a : write_action) (w : World) : World :=
  match a with
  | Add_user u_name u_email u_pass u_goal u_reg =>
      on_add_user u_name u_email u_pass u_goal u_reg w
  | Add_log ins_user_id activity_id log_date qty location_id =>
      on_add_log ins_user_id activity_id log_date qty location_id w
  | Delete_log del_id => on_delete del_id w
  | Import_rows picked_user_id df_imp => on_import picked_user_id df_imp w
  end.

(* ================================================================= *)
(** * Part III'.  Vocabulary of the properties, and data to run them on *)
(* ================================================================= *)

(** ** Integrity of the stored data

    The keys are unique and the references of a log resolve; the schema
    enforces both, the data access layer checks neither. *)
Record consistent (db : Store) : Prop := {
  users_key : NoDup (U_UserID <$> Users db);
  activities_key : NoDup (A_ActivityID <$> Activities db);
  locations_key : NoDup (L_LocationID <$> Locations db);
  logs_key : NoDup (AL_LogID <$> ActivityLogs db);
  logs_user : ∀ al, al ∈ ActivityLogs db →
    AL_UserID al ∈ U_UserID <$> Users db;
  logs_activity : ∀ al, al ∈ ActivityLogs db →
    AL_ActivityID al ∈ A_ActivityID <$> Activities db }.

(** ** What [listLogs] is to return

    A log row satisfies the filters when it satisfies each one that is
    given; a filter that is not given constrains nothing. *)
Definition matches (user_id : option Z) (date_from date_to : option string)
    (al : LogRow) : bool :=
  from_option (λ n, bool_decide (AL_UserID al = n)) true user_id
  && from_option (λ d, String.leb d (AL_Date al)) true date_from
  && from_option (λ d, String.leb (AL_Date al) d) true date_to.

(** [r1] may precede [r2]: later date first, and for one date the larger
    id first. *)
Definition newest_first (r1 r2 : LogView) : Prop :=
  String.ltb (Date r2) (Date r1) = true
  ∨ (Date r1 = Date r2 ∧ LogID r2 ≤ LogID r1).

(** [rows] is exactly the logs of [db] that satisfy the filters, each
    joined with its user, activity and location, newest first. *)
Definition listLogs_spec (db : Store) (user_id : option Z)
    (date_from date_to : option string) (rows : list LogView) : Prop :=
  LogID <$> rows
    ≡ₚ AL_LogID <$> filter (λ al, matches user_id date_from date_to al)
                      (ActivityLogs db)
  ∧ (∀ r, r ∈ rows → ∃ j, j ∈ logs_joined db ∧ r = log_view j)
  ∧ StronglySorted newest_first rows.

(** A filter as [list_logs] sees it: a falsy value is no filter. *)
Definition effective_int (o : option Z) : option Z :=
  if truthy_int o then o else None.

Definition effective_str (o : option string) : option string :=
  if truthy_str o then o else None.

(** ** The events a handler added, and the calls it made *)

Definition new_events (w w' : World) : list ui_event :=
  drop (length (ui w)) (ui w').

Definition new_calls (w w' : World) : list dal_call :=
  drop (length (calls w)) (calls w').

Definition is_row_failed (e : ui_event) : bool :=
  match e with warning_row_failed _ => true | _ => false end.

(** ** A schema and a database to evaluate the model on *)

Definition month_prefix (year month : Z) : string :=
  pretty year +:+ "-" +:+ (if month <? 10 then "0" else "") +:+ pretty month.

Definition example_trigger (db : Store) (new : LogRow) : LogRow :=
  let factor :=
    EF_EmissionValue <$>
      head (filter (λ ef, EF_ActivityID ef = AL_ActivityID new)
              (EmissionFactors db)) in
  {| AL_LogID := AL_LogID new; AL_UserID := AL_UserID new;
     AL_ActivityID := AL_ActivityID new;
     AL_LocationID := AL_LocationID new; AL_Date := AL_Date new;
     AL_Quantity := AL_Quantity new;
     AL_CalculatedEmission := (λ f, (AL_Quantity new * f)%Qc) <$> factor |}.

Definition example_log_violation (db : Store) (row : LogRow) : option string :=
  if negb (bool_decide (AL_UserID row ∈ U_UserID <$> Users db))
  then Some "foreign key UserID"
  else if negb (bool_decide (AL_ActivityID row ∈ A_ActivityID <$> Activities db))
  then Some "foreign key ActivityID"
  else if negb (from_option
                  (λ l, bool_decide (l ∈ L_LocationID <$> Locations db)) true
                  (AL_LocationID row))
  then Some "foreign key LocationID"
  else if bool_decide (AL_LogID row ∈ AL_LogID <$> ActivityLogs db)
  then Some "duplicate LogID"
  else None.

Definition example_user_violation (db : Store) (row : UserRow)
  : option string :=
  if bool_decide (U_Email row ∈ U_Email <$> Users db)
  then Some "duplicate Email"
  else None.

Definition example_goal (db : Store) (user_id year month : Z)
  : option pyval :=
  let total :=
    foldr Qcplus 0%Qc
      (omap AL_CalculatedEmission
         (filter (λ al, AL_UserID al = user_id
                        ∧ String.prefix (month_prefix year month) (AL_Date al))
            (ActivityLogs db))) in
  match filter (λ u, U_UserID u = user_id) (Users db) with
  | u :: _ =>
      Some match U_CarbonGoal u with
           | Some goal => PInt (if Qc_leb total goal then 1 else 0)
           | None => PNone
           end
  | [] => Some PNone
  end.

#[local] Instance example_schema : Schema := {|
  before_insert_log := example_trigger;
  log_violation := example_log_violation;
  user_violation := example_user_violation;
  GetMonthlyEmissionsByCategory := λ _ _ _ _, [[]];
  GetActivityRankingByEmission := λ _ _ _ _, [[]];
  CheckIfUserMetGoal := example_goal;
  City_collation := String.leb |}.

(** Decimal text for the two conversions the examples exercise. *)
#[local] Instance example_builtins : Builtins := {|
  int_of_str := λ s, if bool_decide (s = "1") then Some 1
                     else if bool_decide (s = "2") then Some 2 else None;
  float_of_str := λ s, if bool_decide (s = "2.5") then Some (FNum (Q2Qc (5 # 2)))
                       else if bool_decide (s = "1.0") then Some (FNum 1%Qc)
                       else None;
  str_of_float := λ x, match x with FNaN => "nan" | FNum _ => "0.0" end |}.

(** User 5 with the three logs of January and February 2024, and user 1
    without a goal. *)
Definition example_db : Store := {|
  Users :=
    [ {| U_UserID := 1; U_Name := "Asha"; U_Email := "asha@example.org";
         U_Password := "x"; U_CarbonGoal := None;
         U_RegistrationDate := "2023-12-01" |};
      {| U_UserID := 5; U_Name := "Ravi"; U_Email := "ravi@example.org";
         U_Password := "y"; U_CarbonGoal := Some (Q2Qc 300);
         U_RegistrationDate := "2023-12-15" |} ];
  Categories := [ {| C_CategoryID := 1; C_CategoryName := "Transport" |} ];
  Activities :=
    [ {| A_ActivityID := 1; A_Name := "Car travel"; A_UnitOfMeasure := "km";
         A_CategoryID := 1 |};
      {| A_ActivityID := 2; A_Name := "Bus travel"; A_UnitOfMeasure := "km";
         A_CategoryID := 1 |} ];
  EmissionFactors := [ {| EF_ActivityID := 1; EF_EmissionValue := Q2Qc (1 # 5) |} ];
  Locations := [ {| L_LocationID := 1; L_City := "Pune"; L_Country := "India" |} ];
  ActivityLogs :=
    [ {| AL_LogID := 1; AL_UserID := 5; AL_ActivityID := 1;
         AL_LocationID := Some 1; AL_Date := "2024-01-05";
         AL_Quantity := Q2Qc 10; AL_CalculatedEmission := Some (Q2Qc 2) |};
      {| AL_LogID := 2; AL_UserID := 5; AL_ActivityID := 1;
         AL_LocationID := None; AL_Date := "2024-01-10";
         AL_Quantity := Q2Qc 20; AL_CalculatedEmission := Some (Q2Qc 4) |};
      {| AL_LogID := 3; AL_UserID := 5; AL_ActivityID := 2;
         AL_LocationID := None; AL_Date := "2024-02-01";
         AL_Quantity := Q2Qc 5; AL_CalculatedEmission := None |} ];
  next_UserID := 6;
  next_LogID := 4 |}.

Definition example_world : World :=
  {| db := example_db; cache := ∅; calls := []; ui := [] |}.

(** The session after a first [load_users()] at time 0: the cache holds
    its rows. *)
Definition warm_world : World := (cached 0 load_users example_world).2.

(** The add_log call a row of an imported frame leads to, if its cells
    convert. *)
Definition row_call `{Builtins} (picked_user_id : Z) (df_imp : frame)
    (r : gmap string cell) : option dal_call :=
  match import_args df_imp r with
  | Ok (activity_id, date, qty, location_id) =>
      Some (Call_add_log picked_user_id activity_id date qty location_id)
  | Raise _ => None
  end.

(** Three rows to import, the second with a quantity that is no number. *)
Definition example_frame : frame := {|
  columns := ["ActivityID"; "Date"; "Quantity"];
  rows :=
    [ {[ "ActivityID" := cell_str "1"; "Date" := cell_str "2024-03-01";
         "Quantity" := cell_str "2.5" ]};
      {[ "ActivityID" := cell_str "2"; "Date" := cell_str "2024-03-02";
         "Quantity" := cell_str "abc" ]};
      {[ "ActivityID" := cell_str "2"; "Date" := cell_str "2024-03-03";
         "Quantity" := cell_str "1.0" ]} ] |}.

(* ================================================================= *)
(** * Part III''.  More of [app.py], and vocabulary for its properties *)
(* ================================================================= *)

(** ** View state in the query string

    [st.query_params] is a mapping from names to text.  The dates of the
    filter bar are [datetime.date] values, always truthy; they are held
    here as their ISO text, which is what [str] makes of them. *)
Definition _query_params_set (user_id : option Z) (dfrom dto : string)
  : gmap string string :=
  let qp := ∅ in
  let qp :=
    if truthy_int user_id then <["user" := pretty (default 0 user_id)]> qp
    else qp in
  let qp := <["from" := dfrom]> qp in
  <["to" := dto]> qp.

(** [default_user_from_qp]: the user named in the query string, if the
    text is a number and a listed user has it as id. *)
Definition default_user_from_qp `{Builtins} (qp : gmap string string)
    (users : list UserView) : option Z :=
  match qp !! "user" with
  | None => None
  | Some s =>
      match int_of_str s with
      | Some cand =>
          if bool_decide (Exists (λ u, uv_UserID u = cand) users)
          then Some cand else None
      | None => None
      end
  end.

(** ** The goal check of the dashboard *)

Inductive goal_message :=
  | success_goal_met
  | warning_goal_not_met
  | info_no_result
  | error_goal_check_failed (e : exn).

(** [if picked_user_id: met = func_goal(...)], then one of the three
    messages, by [met is True] and [met is False]. *)
Definition goal_check `{Schema} (now : Z) (picked_user_id : option Z)
    (year month : Z) (w : World) : option goal_message * World :=
  if truthy_int picked_user_id then
    match cached now (func_goal (default 0 picked_user_id) year month) w with
    | (Ok (goal_value (Some true)), w') => (Some success_goal_met, w')
    | (Ok (goal_value (Some false)), w') => (Some warning_goal_not_met, w')
    | (Ok _, w') => (Some info_no_result, w')
    | (Raise e, w') => (Some (error_goal_check_failed e), w')
    end
  else (None, w).

(** ** Sessions

    A session is a sequence of reads through the cache and of presses of
    the write buttons. *)
Inductive action :=
  | do_read (now : Z) (c : read_call)
  | do_write (a : write_action).

Definition step `{Schema, Builtins} (w : World) (x : action) : World :=
  match x with
  | do_read now c => (cached now c w).2
  | do_write a => handle a w
  end.

Definition run `{Schema, Builtins} (xs : list action) (w : World) : World :=
  foldl step w xs.

(** Every entry of the cache is what the database answers now. *)
Definition coherent `{Schema} (w : World) : Prop :=
  ∀ c v fetched, cache w !! c = Some (v, fetched) → query (db w) c = Ok v.

(** A write the handler turns down before it reaches the database. *)
Definition turned_down (a : write_action) : bool :=
  match a with
  | Add_user u_name u_email u_pass _ _ =>
      negb (py_bool (PStr u_name)) || negb (py_bool (PStr u_email))
      || negb (py_bool (PStr u_pass))
  | Add_log _ _ _ _ _ => false
  | Delete_log del_id => del_id <=? 0
  | Import_rows picked_user_id df_imp =>
      negb (bool_decide (valid_cols ⊆ columns df_imp))
      || negb (bool_decide (is_Some picked_user_id))
  end.

(** ** Pages and column orders *)

(** The rows [_paginate_df] returns for a page, and its page count. *)
Definition page_view {A} (df : list A) (page_size page : Z) : list A :=
  match _paginate_df df page page_size with
  | Ok (view, _) => view
  | Raise _ => []
  end.

Definition page_count {A} (df : list A) (page_size : Z) : Z :=
  match _paginate_df df 1 page_size with
  | Ok (_, total_pages) => total_pages
  | Raise _ => 0
  end.

(** The order [sort_values] sorts a column by. *)
Definition col_leb (by_ : column) : LogView → LogView → bool :=
  match by_ with
  | col_LogID => key_leb (λ r, Some (LogID r)) Z.leb
  | col_UserName => key_leb (λ r, Some (UserName r)) String.leb
  | col_ActivityName => key_leb (λ r, Some (ActivityName r)) String.leb
  | col_Date => key_leb (λ r, Some (Date r)) String.leb
  | col_Quantity => key_leb (λ r, Some (Quantity r)) Qc_leb
  | col_CalculatedEmission => key_leb CalculatedEmission Qc_leb
  | col_City => key_leb City String.leb
  | col_Country => key_leb Country String.leb
  end.

(** The row [list_activities] makes of an activity, its category and its
    emission factor, if it has one. *)
Definition activity_view (a : ActivityRow) (c : CategoryRow)
    (ef : option EmissionFactorRow) : ActivityView :=
  {| av_ActivityID := A_ActivityID a; av_Name := A_Name a;
     av_UnitOfMeasure := A_UnitOfMeasure a;
     av_CategoryName := C_CategoryName c;
     av_EmissionValue := EF_EmissionValue <$> ef |}.

(** ** The batch, row by row

    What the import is to do with a frame: handle each row on its own, on
    the database the rows before it have left.  The outcome of a row is
    the exception that made it fail, if it failed; a failed row leaves the
    database to the next row as it found it. *)
Definition row_outcome `{Schema, Builtins} (picked_user_id : Z)
    (df_imp : frame) (s : Store) (r : gmap string cell)
  : option exn * Store :=
  match import_args df_imp r with
  | Raise e => (Some e, s)
  | Ok (activity_id, date, qty, location_id) =>
      match add_log s picked_user_id activity_id date qty location_id with
      | (Ok _, s') => (None, s')
      | (Raise e, s') => (Some e, s')
      end
  end.

Fixpoint batch_outcomes `{Schema, Builtins} (picked_user_id : Z)
    (df_imp : frame) (todo : list (gmap string cell)) (s : Store)
  : list (option exn) * Store :=
  match todo with
  | [] => ([], s)
  | r :: todo' =>
      let '(o, s1) := row_outcome picked_user_id df_imp s r in
      let '(os, s2) := batch_outcomes picked_user_id df_imp todo' s1 in
      (o :: os, s2)
  end.

(** The cells of a row convert to the arguments of an [add_log] call: the
    activity id is [int] of the ActivityID cell, the date [str] of the
    Date cell, the quantity [float] of the Quantity cell, and the location
    is [int] of the LocationID cell when the frame has that column and the
    cell is not NaN, and no location otherwise. *)
Definition converts `{Builtins} (df_imp : frame) (r : gmap string cell)
    (activity_id : Z) (date : string) (qty : pyfloat)
    (location_id : option Z) : Prop :=
  ∃ ca cd cq,
    r !! "ActivityID" = Some ca ∧ py_int ca = Ok activity_id
    ∧ r !! "Date" = Some cd ∧ date = py_str cd
    ∧ r !! "Quantity" = Some cq ∧ py_float cq = Ok qty
    ∧ ((("LocationID" ∉ columns df_imp) ∧ location_id = None)
       ∨ ("LocationID" ∈ columns df_imp
          ∧ ∃ cl, r !! "LocationID" = Some cl
                  ∧ ((notna cl = false ∧ location_id = None)
                     ∨ (notna cl = true
                        ∧ ∃ n, py_int cl = Ok n ∧ location_id = Some n)))).

(* ================================================================= *)
(** * Part IV.  Properties *)
(* ================================================================= *)

(** ** Tactics and facts about lists *)

(** Settle a decidable closed proposition by running its decision
    procedure. *)
Ltac by_compute :=
  match goal with
  | |- ?P => apply (bool_decide_unpack P); vm_compute; exact I
  end.

Lemma filter_none {A} (P : A → Prop) `{!∀ x, Decision (P x)} (l : list A) :
  (∀ y, y ∈ l → ¬ P y) → filter P l = [].
Proof.
  induction l as [|y l IH]; intros Hl; [done|].
  rewrite filter_cons_False by (apply Hl; left).
  apply IH. intros z Hz. apply Hl. by right.
Qed.

Lemma filter_all {A} (P : A → Prop) `{!∀ x, Decision (P x)} (l : list A) :
  (∀ y, y ∈ l → P y) → filter P l = l.
Proof.
  induction l as [|y l IH]; intros Hl; [done|].
  rewrite filter_cons_True by (apply Hl; left).
  f_equal. apply IH. intros z Hz. apply Hl. by right.
Qed.

Lemma filter_length_eq {A} (P : A → Prop) `{!∀ x, Decision (P x)}
    (l : list A) :
  length (filter P l) = length l → filter P l = l.
Proof.
  induction l as [|x l IH]; [done|]. rewrite filter_cons.
  case_decide; simpl; intros Hlen.
  - f_equal. apply IH. lia.
  - pose proof (length_filter P l). lia.
Qed.

Lemma length_filter_split {A} (P : A → Prop) `{!∀ x, Decision (P x)}
    (l : list A) :
  (length (filter (λ x, ¬ P x) l) + length (filter P l))%nat = length l.
Proof.
  induction l as [|x l IH]; [done|].
  rewrite !filter_cons. repeat case_decide; simpl; try lia; tauto.
Qed.

Lemma filter_fmap {A B} (f : A → B) (P : B → Prop) `{!∀ y, Decision (P y)}
    (l : list A) :
  filter P (f <$> l) = f <$> filter (λ x, P (f x)) l.
Proof.
  induction l as [|x l IH]; [done|].
  rewrite fmap_cons, !filter_cons. case_decide; by rewrite ?fmap_cons, IH.
Qed.

Lemma filter_by_key_le_1 {A K} `{!EqDecision K} (f : A → K) (k : K)
    (l : list A) :
  NoDup (f <$> l) → (length (filter (λ x, f x = k) l) ≤ 1)%nat.
Proof.
  induction l as [|x l IH]; simpl; [lia|].
  intros [Hx Hl]%NoDup_cons. rewrite filter_cons. case_decide as Hk.
  - rewrite filter_none; [simpl; lia|].
    intros y Hy Hyk. apply Hx. rewrite Hk, <-Hyk. by apply list_elem_of_fmap_2.
  - by apply IH.
Qed.

Lemma filter_by_key_one {A K} `{!EqDecision K} (f : A → K) (k : K)
    (l : list A) :
  NoDup (f <$> l) → k ∈ f <$> l → ∃ x, filter (λ x, f x = k) l = [x].
Proof.
  intros Hkey (x & -> & Hx)%list_elem_of_fmap.
  pose proof (filter_by_key_le_1 f (f x) l Hkey) as Hle.
  assert (x ∈ filter (λ x', f x' = f x) l) as Hin
    by by apply list_elem_of_filter.
  destruct (filter _ l) as [|x1 [|x2 rest]]; simpl in Hle.
  - by apply elem_of_nil in Hin.
  - by exists x1.
  - lia.
Qed.

Lemma filter_sublist_mono {A} (P : A → Prop) `{!∀ x, Decision (P x)}
    (l1 l2 : list A) :
  l1 `sublist_of` l2 → filter P l1 `sublist_of` filter P l2.
Proof.
  induction 1 as [|x l1 l2 _ IH|x l1 l2 _ IH]; [done|..];
    rewrite ?filter_cons; case_decide; try done.
  - by apply sublist_skip.
  - by apply sublist_cons.
Qed.

(** ** Merge sort: permutation, order and stability *)

Section MsortFacts.
Context {A : Type} (leb : A → A → bool).

Lemma merge_nil_l (l : list A) : merge leb [] l = l.
Proof. by destruct l. Qed.

Lemma merge_nil_r (l : list A) : merge leb l [] = l.
Proof. by destruct l. Qed.

Lemma merge_cons (x1 x2 : A) (l1 l2 : list A) :
  merge leb (x1 :: l1) (x2 :: l2) =
    if leb x1 x2 then x1 :: merge leb l1 (x2 :: l2)
    else x2 :: merge leb (x1 :: l1) l2.
Proof. done. Qed.

Lemma merge_Permutation (l1 l2 : list A) : merge leb l1 l2 ≡ₚ l1 ++ l2.
Proof.
  revert l2. induction l1 as [|x1 l1 IH1]; intros l2.
  { by rewrite merge_nil_l. }
  induction l2 as [|x2 l2 IH2].
  - by rewrite merge_nil_r, app_nil_r.
  - rewrite merge_cons. destruct (leb x1 x2).
    + simpl. f_equiv. apply IH1.
    + rewrite IH2. apply (Permutation_middle (x1 :: l1) l2 x2).
Qed.

Lemma msort_Permutation (l : list A) : msort leb l ≡ₚ l.
Proof.
  funelim (msort leb l); simp msort; [done..|].
  rewrite merge_Permutation, H, H0. by rewrite <-app_comm_cons, take_drop.
Qed.

Lemma msort_length (l : list A) : length (msort leb l) = length l.
Proof. by rewrite msort_Permutation. Qed.

Lemma msort_elem_of (x : A) (l : list A) : x ∈ msort leb l ↔ x ∈ l.
Proof. by rewrite msort_Permutation. Qed.

(** From here on [leb] is a total preorder. *)
Hypothesis leb_total : ∀ x y, leb x y = true ∨ leb y x = true.
Hypothesis leb_trans : ∀ x y z, leb x y = true → leb y z = true → leb x z = true.

Lemma merge_sorted (l1 l2 : list A) :
  StronglySorted leb l1 → StronglySorted leb l2 →
  StronglySorted leb (merge leb l1 l2).
Proof.
  revert l2. induction l1 as [|x1 l1 IH1]; intros l2 Hl1 Hl2.
  { by rewrite merge_nil_l. }
  induction l2 as [|x2 l2 IH2]; [by rewrite merge_nil_r|].
  apply StronglySorted_cons in Hl1 as [Hx1 Hl1].
  apply StronglySorted_cons in Hl2 as [Hx2 Hl2].
  rewrite merge_cons. destruct (leb x1 x2) eqn:Hx.
  - apply StronglySorted_cons; split.
    + rewrite merge_Permutation. apply Forall_app; split; [done|].
      apply Forall_cons; split; [by rewrite Hx|].
      eapply Forall_impl; [exact Hx2|].
      intros y Hy. apply Is_true_true. eapply leb_trans; [exact Hx|].
      by apply Is_true_true.
    + apply IH1; [done|]. by apply StronglySorted_cons.
  - assert (leb x2 x1 = true) as Hx' by (destruct (leb_total x1 x2); congruence).
    apply StronglySorted_cons; split.
    + rewrite merge_Permutation. apply Forall_app; split; [|done].
      apply Forall_cons; split; [by rewrite Hx'|].
      eapply Forall_impl; [exact Hx1|].
      intros y Hy. apply Is_true_true. eapply leb_trans; [exact Hx'|].
      by apply Is_true_true.
    + by apply IH2.
Qed.

Lemma msort_sorted (l : list A) : StronglySorted leb (msort leb l).
Proof.
  funelim (msort leb l); simp msort.
  - constructor.
  - repeat constructor.
  - by apply merge_sorted.
Qed.

Lemma merge_stable (x : A) (l1 l2 : list A) :
  StronglySorted leb l1 → StronglySorted leb l2 →
  filter (λ y, tied leb x y) (merge leb l1 l2) =
    filter (λ y, tied leb x y) l1 ++ filter (λ y, tied leb x y) l2.
Proof.
  revert l2. induction l1 as [|x1 l1 IH1]; intros l2 Hl1 Hl2.
  { by rewrite merge_nil_l. }
  induction l2 as [|x2 l2 IH2].
  { by rewrite merge_nil_r, filter_nil, app_nil_r. }
  rewrite merge_cons. destruct (leb x1 x2) eqn:Hx.
  - apply StronglySorted_cons in Hl1 as [Hx1 Hl1].
    rewrite !(filter_cons _ x1), IH1 by done. by case_decide.
  - pose proof Hl2 as [Hx2 Hl2']%StronglySorted_cons.
    rewrite (filter_cons _ x2), IH2 by done.
    rewrite (filter_cons _ x2 l2). case_decide as Ht; [|done].
    (* [x2] is tied with [x] and strictly below [x1]: nothing of
       [x1 :: l1] is tied with [x] *)
    assert (filter (λ y, tied leb x y) (x1 :: l1) = []) as ->; [|done].
    apply filter_none. intros y Hy Hty.
    apply Is_true_true in Ht, Hty. unfold tied in Ht, Hty.
    apply andb_true_iff in Ht as [Hxx2 Hx2x].
    apply andb_true_iff in Hty as [Hxy Hyx].
    assert (leb x1 y = true) as Hx1y.
    { apply elem_of_cons in Hy as [->|Hy].
      - destruct (leb_total x1 x1); done.
      - apply StronglySorted_cons in Hl1 as [Hx1 _].
        rewrite Forall_forall in Hx1. by apply Is_true_true, Hx1. }
    assert (leb x1 x2 = true); [|congruence].
    eauto using leb_trans.
Qed.

(** Stability: the elements tied with any [x] come out of the sort in
    the order they went in. *)
Lemma msort_stable (x : A) (l : list A) :
  filter (λ y, tied leb x y) (msort leb l) = filter (λ y, tied leb x y) l.
Proof.
  funelim (msort leb l); simp msort; [done..|].
  rewrite merge_stable by apply msort_sorted.
  rewrite H, H0, <-filter_app. by rewrite <-app_comm_cons, take_drop.
Qed.
End MsortFacts.

(** ** [user_met_goal] *)

Lemma fetchone_goal `{Schema} (db : Store) (user_id year month : Z) :
  fetchone (select_CheckIfUserMetGoal db user_id year month)
  = (λ v, [v]) <$> CheckIfUserMetGoal db user_id year month.
Proof.
  unfold select_CheckIfUserMetGoal.
  by destruct (CheckIfUserMetGoal db user_id year month).
Qed.

(** C4.  [user_met_goal] is tri-state: it answers unknown ([None]) exactly
    when the SELECT of [CheckIfUserMetGoal] fetches no row, and otherwise
    it answers the truth value of the one scalar of the fetched row. *)
Theorem user_met_goal_tristate `{Schema} (db : Store) (user_id year month : Z) :
  (user_met_goal db user_id year month = None
   ↔ fetchone (select_CheckIfUserMetGoal db user_id year month) = None)
  ∧ user_met_goal db user_id year month
    = py_bool <$> CheckIfUserMetGoal db user_id year month.
Proof.
  unfold user_met_goal. rewrite fetchone_goal.
  destruct (CheckIfUserMetGoal db user_id year month); simpl; naive_solver.
Qed.

(** C10.  When the function yields a row whose scalar is NULL,
    [user_met_goal] answers false, not unknown. *)
Theorem user_met_goal_null `{Schema} (db : Store) (user_id year month : Z) :
  fetchone (select_CheckIfUserMetGoal db user_id year month) = Some [PNone] →
  user_met_goal db user_id year month = Some false.
Proof. unfold user_met_goal. by intros ->. Qed.

Lemma user_met_goal_null_witness :
  fetchone (select_CheckIfUserMetGoal example_db 1 2024 1) = Some [PNone]
  ∧ user_met_goal example_db 1 2024 1 = Some false.
Proof.
  split; [reflexivity|].
  apply (user_met_goal_null example_db 1 2024 1). reflexivity.
Defined.

(** ** [list_logs]: a zero user id *)

(** C9.  A user filter equal to 0 is no filter: the query sent, and so the
    rows returned, are those of a call without a user filter. *)
Theorem list_logs_user_zero (db : Store) (date_from date_to : option string) :
  list_logs_query (Some 0) date_from date_to
  = list_logs_query None date_from date_to
  ∧ list_logs db (Some 0) date_from date_to
    = list_logs db None date_from date_to.
Proof. done. Qed.

(** ** [delete_log] *)

Lemma delete_log_rowcount (db : Store) (log_id : Z) :
  (delete_log db log_id).1
  = Z.of_nat (length (filter (λ al, AL_LogID al = log_id) (ActivityLogs db))).
Proof.
  unfold delete_log. simpl.
  pose proof (length_filter_split (λ al, AL_LogID al = log_id)
                (ActivityLogs db)).
  lia.
Qed.

(** C5.  With LogID a key of the table, [delete_log] returns the number of
    rows it removed, which is 0 or 1; for an id no row has it returns 0 and
    leaves the table as it was.  It has no failing outcome. *)
Theorem delete_log_count (db : Store) (log_id : Z) :
  NoDup (AL_LogID <$> ActivityLogs db) →
  let '(rowcount, db') := delete_log db log_id in
  rowcount
  = Z.of_nat (length (ActivityLogs db)) - Z.of_nat (length (ActivityLogs db'))
  ∧ (rowcount = 0 ∨ rowcount = 1)
  ∧ (rowcount = 1 ↔ log_id ∈ AL_LogID <$> ActivityLogs db)
  ∧ (log_id ∉ AL_LogID <$> ActivityLogs db → rowcount = 0 ∧ db' = db)
  ∧ log_id ∉ AL_LogID <$> ActivityLogs db'.
Proof.
  intros Hkey.
  pose proof (delete_log_rowcount db log_id) as Hcount.
  pose proof (filter_by_key_le_1 AL_LogID log_id _ Hkey) as Hle.
  destruct (delete_log db log_id) as [rowcount db'] eqn:Hdel.
  unfold delete_log in Hdel. injection Hdel as Hrc Hdb. simpl in Hcount.
  assert (log_id ∉ AL_LogID <$> ActivityLogs db → rowcount = 0 ∧ db' = db)
    as Hmiss.
  { intros Hnot.
    assert (filter (λ al, AL_LogID al ≠ log_id) (ActivityLogs db)
            = ActivityLogs db) as Hkept.
    { apply filter_all. intros al Hal Heq. apply Hnot.
      rewrite <-Heq. by apply list_elem_of_fmap_2. }
    rewrite Hkept in Hrc, Hdb. split; [lia|].
    rewrite <-Hdb. by destruct db. }
  split; [by rewrite <-Hrc, <-Hdb|].
  split; [lia|]. split; [|split; [done|]].
  - split.
    + intros Hone. destruct (decide (log_id ∈ AL_LogID <$> ActivityLogs db))
        as [|Hnot]; [done|]. apply Hmiss in Hnot as [? _]. lia.
    + intros (al & -> & Hal)%list_elem_of_fmap.
      assert (al ∈ filter (λ al', AL_LogID al' = AL_LogID al)
                     (ActivityLogs db)) as Hin
        by by apply list_elem_of_filter.
      destruct (filter _ (ActivityLogs db)); [by apply elem_of_nil in Hin|].
      simpl in *. lia.
  - rewrite <-Hdb. simpl. intros (al & -> & Hal)%list_elem_of_fmap.
    by apply list_elem_of_filter in Hal as [? _].
Qed.

Lemma delete_log_count_witness :
  NoDup (AL_LogID <$> ActivityLogs example_db)
  ∧ (delete_log example_db 2).1 = 1
  ∧ (delete_log example_db 7).1 = 0.
Proof.
  assert (NoDup (AL_LogID <$> ActivityLogs example_db)) as Hkey.
  { by_compute. }
  split; [exact Hkey|]. split.
  - pose proof (delete_log_count example_db 2 Hkey) as Hd.
    destruct (delete_log example_db 2) as [rowcount db'].
    destruct Hd as (_ & _ & Hone & _). apply Hone.
    by_compute.
  - pose proof (delete_log_count example_db 7 Hkey) as Hd.
    destruct (delete_log example_db 7) as [rowcount db'].
    destruct Hd as (_ & _ & _ & Hmiss & _). apply Hmiss.
    by_compute.
Defined.

(** ** [add_log] *)

(** C7.  [add_log] never supplies CalculatedEmission.  The statement it
    sends names the five columns UserID, ActivityID, LocationID, Date and
    Quantity, bound to its five arguments; the row it proposes therefore
    has a NULL emission, and the row that gets stored is the one the
    BEFORE INSERT trigger of the schema makes of it. *)
Theorem add_log_leaves_emission_out `{Schema} (db : Store)
    (user_id activity_id : Z) (date : string) (qty : pyfloat)
    (location_id : option Z) :
  let st := add_log_statement user_id activity_id date qty location_id in
  add_log db user_id activity_id date qty location_id
  = execute_insert_log db st
  ∧ ins_columns st
    = [ColUserID; ColActivityID; ColLocationID; ColDate; ColQuantity]
  ∧ ins_values st
    = [PInt user_id; PInt activity_id; py_of_int location_id; PStr date;
       PFloat qty]
  ∧ (ColCalculatedEmission ∉ ins_columns st)
  ∧ supplied ColCalculatedEmission (ins_columns st) (ins_values st) = None
  ∧ proposed_log db st
    = match qty with
      | FNum q =>
          Ok {| AL_LogID := next_LogID db; AL_UserID := user_id;
                AL_ActivityID := activity_id; AL_LocationID := location_id;
                AL_Date := date; AL_Quantity := q;
                AL_CalculatedEmission := None |}
      | FNaN => Raise (DatabaseError "numeric column")
      end
  ∧ (∀ new_id db',
      add_log db user_id activity_id date qty location_id = (Ok new_id, db') →
      ∃ new, proposed_log db st = Ok new
             ∧ AL_CalculatedEmission new = None
             ∧ ActivityLogs db' = ActivityLogs db ++ [before_insert_log db new]
             ∧ new_id = AL_LogID (before_insert_log db new)).
Proof.
  intros st.
  assert (proposed_log db st
          = match qty with
            | FNum q =>
                Ok {| AL_LogID := next_LogID db; AL_UserID := user_id;
                      AL_ActivityID := activity_id;
                      AL_LocationID := location_id;
                      AL_Date := date; AL_Quantity := q;
                      AL_CalculatedEmission := None |}
            | FNaN => Raise (DatabaseError "numeric column")
            end) as Hprop.
  { subst st. unfold proposed_log. simpl.
    destruct location_id, qty; reflexivity. }
  split; [done|]. split; [done|]. split; [done|].
  split.
  { subst st. simpl. by_compute. }
  split; [done|]. split; [done|].
  intros new_id db' Hadd. unfold add_log, execute_insert_log in Hadd.
  fold st in Hadd. rewrite Hprop in Hadd |- *.
  destruct qty as [q|]; [|by inversion Hadd].
  eexists; split; [done|]. split; [done|].
  destruct (log_violation db _); inversion Hadd; by subst.
Qed.

(** ** Pagination *)

Lemma iloc_forward {A} (df : list A) (start len : Z) :
  0 ≤ start → 0 ≤ len →
  iloc df start (start + len)
  = take (Z.to_nat len) (drop (Z.to_nat start) df).
Proof.
  intros Hstart Hlen. unfold iloc.
  set (n := Z.of_nat (length df)).
  destruct (Z.ltb_spec start 0); [lia|].
  destruct (Z.ltb_spec (start + len) 0); [lia|].
  destruct (Z.le_gt_cases n start) as [Hge|Hlt].
  - rewrite !drop_ge by (subst n; lia). by rewrite !take_nil.
  - rewrite (Z.min_l start n) by lia.
    destruct (Z.le_gt_cases (start + len) n).
    + rewrite (Z.min_l (start + len) n) by lia. f_equal. lia.
    + rewrite (Z.min_r (start + len) n) by lia.
      rewrite !take_ge; [done|rewrite length_drop; subst n; lia..].
Qed.

(** The helper on its own.  For a frame of [R] rows and a page size
    [P > 0], [_paginate_df]
    returns [totalPages = ceil(R / P)], which is 0 when [R = 0]; it clamps
    the requested page into [[1, totalPages]] and returns the rows of that
    page, [P] rows from offset [(page - 1) * P]; the last page holds
    [R - P * (totalPages - 1)] rows, a number between 1 and [P]. *)
Theorem paginate_df_spec {A} (df : list A) (page page_size : Z) :
  0 < page_size →
  let R := Z.of_nat (length df) in
  ∃ view total_pages,
    _paginate_df df page page_size = Ok (view, total_pages)
    ∧ total_pages = (R + page_size - 1) / page_size
    ∧ page_size * (total_pages - 1) < R ≤ page_size * total_pages
    ∧ (R = 0 → total_pages = 0)
    ∧ let clamped := Z.max 1 (Z.min page total_pages) in
      (0 < R → 1 ≤ clamped ≤ total_pages)
      ∧ (1 ≤ page ≤ total_pages → clamped = page)
      ∧ (0 < R → total_pages < page → clamped = total_pages)
      ∧ view = take (Z.to_nat page_size)
                 (drop (Z.to_nat ((clamped - 1) * page_size)) df)
      ∧ (0 < R → clamped = total_pages →
         Z.of_nat (length view) = R - page_size * (total_pages - 1)
         ∧ 1 ≤ Z.of_nat (length view) ≤ page_size).
Proof.
  intros HP R. unfold _paginate_df.
  destruct df as [|a df]; simpl df_empty; cbv iota.
  { exists [], 0. subst R. cbv zeta.
    change (Z.of_nat (length (@nil A))) with 0.
    rewrite Z.add_0_l, Z.div_small by lia.
    split; [done|]. split; [done|]. split; [lia|]. split; [done|].
    split; [lia|]. split; [lia|]. split; [lia|].
    split; [by rewrite drop_nil, take_nil|]. lia. }
  assert (0 < R) as HR by (subst R; simpl; lia).
  unfold floordiv. destruct (Z.eqb_spec page_size 0) as [|_]; [lia|].
  unfold mbind, result_bind, mret, result_ret. fold R.
  pose proof (Z.div_mod (R + page_size - 1) page_size ltac:(lia)) as Hdm.
  pose proof (Z.mod_pos_bound (R + page_size - 1) page_size HP) as Hmod.
  set (total := (R + page_size - 1) / page_size) in *.
  assert (page_size * (total - 1) < R ≤ page_size * total) as Hceil by nia.
  assert (1 ≤ total) as Htotal by nia.
  eexists _, total. split; [done|].
  set (clamped := Z.max 1 (Z.min page total)).
  assert (1 ≤ clamped ≤ total) as Hcl by (subst clamped; lia).
  split; [done|]. split; [done|]. split; [lia|].
  split; [done|]. split; [subst clamped; lia|].
  split; [subst clamped; lia|].
  rewrite iloc_forward by nia. split; [done|].
  intros _ Hlast. rewrite length_take, length_drop. fold R.
  rewrite Hlast. nia.
Qed.

Lemma paginate_df_spec_witness :
  0 < 2 ∧ _paginate_df [1; 2; 3; 4; 5] 9 2 = Ok ([5], 3).
Proof.
  split; [lia|].
  destruct (paginate_df_spec [1; 2; 3; 4; 5] 9 2 ltac:(lia))
    as (view & total_pages & -> & -> & _ & _ & _ & _ & _ & -> & _).
  reflexivity.
Defined.

Example paginate_df_examples :
  _paginate_df [1; 2; 3; 4; 5] 2 2 = Ok ([3; 4], 3)
  ∧ _paginate_df [1; 2; 3; 4; 5] 3 2 = Ok ([5], 3)
  ∧ _paginate_df [1; 2; 3; 4; 5] 0 2 = Ok ([1; 2], 3)
  ∧ _paginate_df (@nil Z) 1 2 = Ok ([], 0)
  ∧ _paginate_df [1; 2; 3; 4; 5] 1 0 = Raise ZeroDivisionError.
Proof. repeat split. Qed.

(** The Logs tab does not show the last page for a page number past it:
    it warns and shows the first page. *)
Lemma logs_tab_page_reset (df_logs : list LogView) (page_size page : Z)
    (sort_col : column) (ascending : bool) (view : list LogView)
    (total_pages : Z) :
  _paginate_df (sort_values sort_col ascending df_logs) page page_size
  = Ok (view, total_pages) →
  total_pages ≠ 0 → total_pages < page →
  logs_tab_view df_logs page_size page sort_col ascending
  = (λ vt, (vt, [warning_page_reset total_pages]))
    <$> _paginate_df (sort_values sort_col ascending df_logs) 1 page_size.
Proof.
  intros Hpag H0 Hlt. unfold logs_tab_view. rewrite Hpag. simpl.
  destruct (Z.eqb_spec total_pages 0); [done|].
  destruct (Z.gtb_spec page total_pages); [|lia]. simpl.
  unfold _paginate_df in Hpag |- *.
  destruct (df_empty _); [by inversion Hpag|].
  destruct (floordiv _ page_size) as [t|]; simpl in *; [|done].
  by inversion Hpag.
Qed.

Example logs_tab_page_9 :
  fmap (M := result)
    (λ out : list LogView * Z * list ui_event,
       (fmap (M := list) LogID out.1.1, out.1.2, out.2))
    (logs_tab_view (select_logs example_db (λ _, true)) 2 9 col_Date false)
  = Ok ([3; 2], 2, [warning_page_reset 2]).
Proof. reflexivity. Qed.

(** ** Stability of [sort_values] *)

Section SortValuesFacts.
Context {A K : Type} `{!EqDecision K} (key : A → option K)
  (leb : K → K → bool).
Hypothesis leb_total : ∀ a b, leb a b = true ∨ leb b a = true.
Hypothesis leb_trans :
  ∀ a b c, leb a b = true → leb b c = true → leb a c = true.
Hypothesis leb_antisym : ∀ a b, leb a b = true → leb b a = true → a = b.

Lemma key_leb_total (x y : A) :
  key_leb key leb x y = true ∨ key_leb key leb y x = true.
Proof. unfold key_leb. destruct (key x), (key y); auto. Qed.

Lemma key_leb_trans (x y z : A) :
  key_leb key leb x y = true → key_leb key leb y z = true →
  key_leb key leb x z = true.
Proof.
  unfold key_leb. destruct (key x), (key y), (key z); try done.
  apply leb_trans.
Qed.

Lemma tied_key (x y : A) : tied (key_leb key leb) x y ↔ key y = key x.
Proof.
  unfold tied, key_leb. rewrite andb_True, !Is_true_true.
  destruct (key x) as [a|], (key y) as [b|].
  - split.
    + intros [??]. f_equal. by apply leb_antisym.
    + intros [= ->]. by destruct (leb_total a a).
  - split; [by intros [??]|done].
  - split; [by intros [??]|done].
  - done.
Qed.

Lemma filter_tied (x : A) (l : list A) :
  filter (λ y, key y = key x) l = filter (λ y, tied (key_leb key leb) x y) l.
Proof. apply list_filter_iff. intros y. by rewrite tied_key. Qed.

Lemma filter_key_split (x : A) (df : list A) :
  filter (λ y, key y = key x) (filter (λ r, is_Some (key r)) df)
  ++ filter (λ y, key y = key x) (filter (λ r, key r = None) df)
  = filter (λ y, key y = key x) df.
Proof.
  destruct (key x) as [k|] eqn:Hx.
  - rewrite (filter_none _ (filter (λ r, key r = None) df)), app_nil_r.
    + rewrite list_filter_filter. apply list_filter_iff.
      intros y. split; [by intros [??]|]. intros Hy. by rewrite Hy.
    + intros y [Hy _]%list_elem_of_filter. congruence.
  - rewrite (filter_none _ (filter (λ r, is_Some (key r)) df)). simpl.
    + rewrite list_filter_filter. apply list_filter_iff.
      intros y. split; [by intros [??]|done].
    + intros y [[k Hy] _]%list_elem_of_filter. congruence.
Qed.

Lemma sort_values_by_stable (ascending : bool) (x : A) (df : list A) :
  filter (λ y, key y = key x) (sort_values_by key leb ascending df)
  = filter (λ y, key y = key x) df.
Proof.
  unfold sort_values_by. rewrite filter_app, <-(filter_key_split x df).
  f_equal. rewrite !filter_tied. destruct ascending.
  - apply msort_stable; [apply key_leb_total|apply key_leb_trans].
  - rewrite filter_reverse, msort_stable, filter_reverse, reverse_involutive;
      [done|apply key_leb_total|apply key_leb_trans].
Qed.

(** The same for any predicate that holds of the rows with the key of
    [x]. *)
Lemma sort_values_by_stable_iff (P : A → Prop) `{!∀ y, Decision (P y)}
    (ascending : bool) (x : A) (df : list A) :
  (∀ y, P y ↔ key y = key x) →
  filter P (sort_values_by key leb ascending df) = filter P df.
Proof.
  intros HP.
  rewrite !(list_filter_iff P (λ y, key y = key x)) by done.
  apply sort_values_by_stable.
Qed.

(** The rows that have a key come first, in the order asked for. *)
Lemma sort_values_by_sorted (ascending : bool) (df : list A) :
  ∃ keyed,
    sort_values_by key leb ascending df
    = keyed ++ filter (λ r, key r = None) df
    ∧ Sorted (λ x y, if ascending then key_leb key leb x y
                     else key_leb key leb y x) keyed.
Proof.
  unfold sort_values_by. eexists. split; [done|].
  destruct ascending.
  - apply StronglySorted_Sorted, msort_sorted;
      [apply key_leb_total|apply key_leb_trans].
  - apply (Sorted_reverse (key_leb key leb)), StronglySorted_Sorted,
      msort_sorted; [apply key_leb_total|apply key_leb_trans].
Qed.

(** Two rows with one key, the first before the second, are still in
    that order after the sort. *)
Lemma sort_values_by_pair (ascending : bool) (x y : A) (df : list A) :
  key y = key x →
  [x; y] `sublist_of` df →
  [x; y] `sublist_of` sort_values_by key leb ascending df.
Proof.
  intros Hkey Hdf.
  apply (filter_sublist_mono (λ z, key z = key x)) in Hdf.
  rewrite !filter_cons_True, filter_nil in Hdf by done.
  rewrite <-(sort_values_by_stable ascending x df) in Hdf.
  etrans; [exact Hdf|apply sublist_filter].
Qed.

Lemma sort_values_by_Permutation (ascending : bool) (df : list A) :
  sort_values_by key leb ascending df ≡ₚ df.
Proof.
  unfold sort_values_by.
  assert ((if ascending
           then msort (key_leb key leb) (filter (λ r, is_Some (key r)) df)
           else reverse (msort (key_leb key leb)
                           (reverse (filter (λ r, is_Some (key r)) df))))
          ≡ₚ filter (λ r, is_Some (key r)) df) as ->.
  { destruct ascending.
    - apply msort_Permutation.
    - by rewrite reverse_Permutation, msort_Permutation,
        reverse_Permutation. }
  rewrite (list_filter_iff (λ r, key r = None) (λ r, ¬ is_Some (key r))).
  - apply filter_app_complement.
  - intros y. apply eq_None_not_Some.
Qed.
End SortValuesFacts.

Lemma Z_leb_total (a b : Z) : (a <=? b) = true ∨ (b <=? a) = true.
Proof. lia. Qed.
Lemma Z_leb_trans (a b c : Z) :
  (a <=? b) = true → (b <=? c) = true → (a <=? c) = true.
Proof. lia. Qed.
Lemma Z_leb_antisym (a b : Z) : (a <=? b) = true → (b <=? a) = true → a = b.
Proof. lia. Qed.

Lemma String_leb_trans (a b c : string) :
  String.leb a b = true → String.leb b c = true → String.leb a c = true.
Proof.
  intros Hab%Is_true_true Hbc%Is_true_true. apply Is_true_true.
  by etrans.
Qed.

Lemma Qc_leb_total (a b : Qc) : Qc_leb a b = true ∨ Qc_leb b a = true.
Proof.
  unfold Qc_leb. rewrite !bool_decide_eq_true.
  destruct (Qclt_le_dec a b) as [?%Qclt_le_weak|?]; auto.
Qed.
Lemma Qc_leb_trans (a b c : Qc) :
  Qc_leb a b = true → Qc_leb b c = true → Qc_leb a c = true.
Proof. unfold Qc_leb. rewrite !bool_decide_eq_true. apply Qcle_trans. Qed.
Lemma Qc_leb_antisym (a b : Qc) :
  Qc_leb a b = true → Qc_leb b a = true → a = b.
Proof. unfold Qc_leb. rewrite !bool_decide_eq_true. apply Qcle_antisym. Qed.

Lemma sort_values_unfold (by_ : column) (ascending : bool)
    (df : list LogView) :
  ∃ (K : Type) (key : LogView → option K) (leb : K → K → bool)
    (_ : EqDecision K),
    sort_values by_ ascending df = sort_values_by key leb ascending df
    ∧ (∀ a b, leb a b = true ∨ leb b a = true)
    ∧ (∀ a b c, leb a b = true → leb b c = true → leb a c = true)
    ∧ (∀ a b, leb a b = true → leb b a = true → a = b)
    ∧ ∀ r r', sort_key by_ r' = sort_key by_ r ↔ key r' = key r.
Proof.
  destruct by_; unfold sort_values, sort_key.
  - exists Z, (λ r, Some (LogID r)), Z.leb, _.
    split; [done|]. split; [apply Z_leb_total|].
    split; [apply Z_leb_trans|]. split; [apply Z_leb_antisym|].
    intros r r'. split; congruence.
  - exists string, (λ r, Some (UserName r)), String.leb, _.
    split; [done|]. split; [apply String.leb_total|].
    split; [apply String_leb_trans|]. split; [apply String.leb_antisym|].
    intros r r'. split; congruence.
  - exists string, (λ r, Some (ActivityName r)), String.leb, _.
    split; [done|]. split; [apply String.leb_total|].
    split; [apply String_leb_trans|]. split; [apply String.leb_antisym|].
    intros r r'. split; congruence.
  - exists string, (λ r, Some (Date r)), String.leb, _.
    split; [done|]. split; [apply String.leb_total|].
    split; [apply String_leb_trans|]. split; [apply String.leb_antisym|].
    intros r r'. split; congruence.
  - exists Qc, (λ r, Some (Quantity r)), Qc_leb, _.
    split; [done|]. split; [apply Qc_leb_total|].
    split; [apply Qc_leb_trans|]. split; [apply Qc_leb_antisym|].
    intros r r'. split; congruence.
  - exists Qc, CalculatedEmission, Qc_leb, _.
    split; [done|]. split; [apply Qc_leb_total|].
    split; [apply Qc_leb_trans|]. split; [apply Qc_leb_antisym|].
    intros r r'.
    destruct (CalculatedEmission r'), (CalculatedEmission r); simpl;
      split; congruence.
  - exists string, City, String.leb, _.
    split; [done|]. split; [apply String.leb_total|].
    split; [apply String_leb_trans|]. split; [apply String.leb_antisym|].
    intros r r'. destruct (City r'), (City r); simpl; split; congruence.
  - exists string, Country, String.leb, _.
    split; [done|]. split; [apply String.leb_total|].
    split; [apply String_leb_trans|]. split; [apply String.leb_antisym|].
    intros r r'. destruct (Country r'), (Country r); simpl; split; congruence.
Qed.

(** C8.  [sort_values] is stable.  For every frame, every sort column and
    both directions, the sorted frame holds the rows of the frame, and the
    rows that share a sort-key value, or that all lack one, stand in it in
    the order they had before: any two of them that stood one before the
    other still do. *)
Theorem sort_values_stable (by_ : column) (ascending : bool)
    (df : list LogView) :
  sort_values by_ ascending df ≡ₚ df
  ∧ (∀ r, filter (λ r', sort_key by_ r' = sort_key by_ r)
            (sort_values by_ ascending df)
          = filter (λ r', sort_key by_ r' = sort_key by_ r) df)
  ∧ (∀ r1 r2, sort_key by_ r1 = sort_key by_ r2 →
              [r1; r2] `sublist_of` df →
              [r1; r2] `sublist_of` sort_values by_ ascending df).
Proof.
  destruct (sort_values_unfold by_ ascending df)
    as (K & key & leb & HK & -> & Htotal & Htrans & Hanti & Hkey).
  split; [apply sort_values_by_Permutation|]. split.
  - intros r.
    apply (sort_values_by_stable_iff key leb Htotal Htrans Hanti _
             ascending r df).
    intros r'. apply Hkey.
  - intros r1 r2 H12 Hdf. apply sort_values_by_pair; [done..| |done].
    by apply Hkey.
Qed.

(** Three logs of one date sorted by date: they keep their order in
    either direction, while the log of a later date moves. *)
Example sort_values_ties :
  let row id date :=
    {| LogID := id; UserName := "Ravi"; ActivityName := "Car travel";
       Date := date; Quantity := 1%Qc; CalculatedEmission := None;
       City := None; Country := None |} in
  let df := [row 4 "2024-01-10"; row 9 "2024-01-05"; row 2 "2024-01-05";
             row 7 "2024-01-05"] in
  LogID <$> sort_values col_Date true df = [9; 2; 7; 4]
  ∧ LogID <$> sort_values col_Date false df = [4; 9; 2; 7]
  ∧ LogID <$> sort_values col_LogID false df = [9; 7; 4; 2]
  ∧ LogID <$> sort_values col_City true df = [4; 9; 2; 7].
Proof. repeat split. Qed.

(** ** [list_logs] *)

(** *** The order of [ORDER BY AL.Date DESC, AL.LogID DESC] *)

Lemma String_ltb_leb (a b : string) : String.ltb a b = negb (String.leb b a).
Proof.
  unfold String.ltb, String.leb. rewrite (String.compare_antisym a b).
  by destruct (String.compare b a).
Qed.

Lemma String_leb_refl (a : string) : String.leb a a = true.
Proof. by destruct (String.leb_total a a). Qed.

Lemma String_ltb_spec (a b : string) :
  String.ltb a b = true ↔ String.leb a b = true ∧ a ≠ b.
Proof.
  rewrite String_ltb_leb, negb_true_iff. split.
  - intros Hba. split.
    + by destruct (String.leb_total a b) as [|Hba']; [|rewrite Hba in Hba'].
    + intros ->. by rewrite String_leb_refl in Hba.
  - intros [Hab Hne]. destruct (String.leb b a) eqn:Hba; [|done].
    destruct Hne. by apply String.leb_antisym.
Qed.

Lemma date_id_desc_spec (x y : LogRow) :
  date_id_desc x y = true
  ↔ String.ltb (AL_Date y) (AL_Date x) = true
    ∨ (AL_Date x = AL_Date y ∧ AL_LogID y ≤ AL_LogID x).
Proof.
  unfold date_id_desc.
  rewrite orb_true_iff, andb_true_iff, bool_decide_eq_true, Z.leb_le. done.
Qed.

Lemma date_id_desc_total (x y : LogRow) :
  date_id_desc x y = true ∨ date_id_desc y x = true.
Proof.
  rewrite !date_id_desc_spec, !String_ltb_spec.
  destruct (decide (AL_Date x = AL_Date y)) as [Heq|Hne].
  - destruct (Z.le_ge_cases (AL_LogID x) (AL_LogID y)); auto.
  - destruct (String.leb_total (AL_Date x) (AL_Date y)); auto 6.
Qed.

Lemma date_id_desc_trans (x y z : LogRow) :
  date_id_desc x y = true → date_id_desc y z = true →
  date_id_desc x z = true.
Proof.
  rewrite !date_id_desc_spec, !String_ltb_spec.
  intros [[Hyx Hne1]|[Hxy Hid1]] [[Hzy Hne2]|[Hyz Hid2]].
  - left. split; [by eapply String_leb_trans|].
    intros Heq. rewrite Heq in Hzy. apply Hne1.
    by apply String.leb_antisym.
  - left. by rewrite <-Hyz.
  - left. by rewrite Hxy.
  - right. split; [congruence|lia].
Qed.

(** *** The WHERE clause *)

Lemma list_logs_where (user_id : option Z) (date_from date_to : option string) :
  ∃ where_,
    bind_where (list_logs_query user_id date_from date_to).1
               (list_logs_query user_id date_from date_to).2 = Ok where_
    ∧ ∀ al, where_ al
            = matches (effective_int user_id) (effective_str date_from)
                (effective_str date_to) al.
Proof.
  unfold list_logs_query, effective_int, effective_str.
  destruct user_id as [n|], date_from as [d1|], date_to as [d2|]; simpl;
    repeat match goal with
           | |- context [negb ?b] => destruct b; simpl
           end;
    (eexists; split; [reflexivity|]);
    intros al; unfold matches; simpl;
    rewrite ?andb_true_r, ?andb_assoc; reflexivity.
Qed.

(** *** The join *)

Lemma left_join_one {A} (l : list A) :
  (length l ≤ 1)%nat → ∃ o, left_join l = [o].
Proof.
  destruct l as [|x [|y l]]; simpl; intros Hl; [by eexists..|lia].
Qed.

(** With consistent data the join pairs every log with one user, one
    activity and at most one location: it has one row per log, in the
    order of the logs. *)
Lemma logs_joined_logs (db : Store) :
  consistent db → log_of <$> logs_joined db = ActivityLogs db.
Proof.
  intros Hdb. unfold logs_joined.
  assert (∀ al, al ∈ ActivityLogs db → al ∈ ActivityLogs db) as Hall by done.
  revert Hall. generalize (ActivityLogs db) at 1 3 4. intros logs Hall.
  induction logs as [|al logs IH]; [done|].
  rewrite bind_cons, fmap_app, IH by (intros; apply Hall; by right).
  assert (al ∈ ActivityLogs db) as Hal by (apply Hall; left).
  destruct (filter_by_key_one U_UserID (AL_UserID al) (Users db))
    as [u ->]; [by apply users_key|by apply logs_user|].
  destruct (filter_by_key_one A_ActivityID (AL_ActivityID al) (Activities db))
    as [a ->]; [by apply activities_key|by apply logs_activity|].
  destruct (left_join_one
              (filter (λ l, Some (L_LocationID l) = AL_LocationID al)
                 (Locations db))) as [o ->].
  { apply (filter_by_key_le_1 (λ l, Some (L_LocationID l))).
    rewrite (list_fmap_compose L_LocationID Some).
    by apply (NoDup_fmap_2 _), locations_key. }
  done.
Qed.

(** *** The rows returned *)

Lemma LogID_log_view (js : list (LogRow * UserRow * ActivityRow
                                 * option LocationRow)) :
  LogID <$> (log_view <$> js) = AL_LogID <$> (log_of <$> js).
Proof.
  rewrite <-!list_fmap_compose. apply list_fmap_ext.
  by intros _ [[[al u] a] l] _.
Qed.

Lemma newest_first_view
    (x y : LogRow * UserRow * ActivityRow * option LocationRow) :
  date_id_desc (log_of x) (log_of y) → newest_first (log_view x) (log_view y).
Proof.
  intros H%Is_true_true%date_id_desc_spec.
  by destruct x as [[[??]?]?], y as [[[??]?]?].
Qed.

Lemma select_logs_spec (db : Store) (where_ : LogRow → bool)
    (user_id : option Z) (date_from date_to : option string) :
  consistent db →
  (∀ al, where_ al = matches user_id date_from date_to al) →
  listLogs_spec db user_id date_from date_to (select_logs db where_).
Proof.
  intros Hdb Hwhere. unfold listLogs_spec, select_logs. split; [|split].
  - rewrite LogID_log_view, msort_Permutation.
    pose proof (filter_fmap log_of (λ al, where_ al) (logs_joined db)) as Hf.
    cbv beta in Hf. rewrite <-Hf, logs_joined_logs by done.
    rewrite (list_filter_iff (λ al, where_ al)
               (λ al, matches user_id date_from date_to al)); [done|].
    intros al. by rewrite Hwhere.
  - intros r (j & -> & Hj)%list_elem_of_fmap. exists j. split; [|done].
    by apply msort_elem_of, list_elem_of_filter in Hj as [_ ?].
  - eapply StronglySorted_fmap; [apply newest_first_view|].
    apply (msort_sorted (λ x y, date_id_desc (log_of x) (log_of y))).
    + intros x y. apply date_id_desc_total.
    + intros x y z. apply date_id_desc_trans.
Qed.

(** C1, as the code has it.  On consistent data and for every combination
    of the three optional filters, [list_logs] returns exactly the logs
    that satisfy each filter it was given, joined with their user,
    activity and location and ordered by date descending, then by id
    descending; a filter that is omitted constrains nothing, and neither
    does a user id of 0 or an empty date text. *)
Theorem list_logs_exact (db : Store) (user_id : option Z)
    (date_from date_to : option string) :
  consistent db →
  ∃ rows,
    list_logs db user_id date_from date_to = Ok rows
    ∧ listLogs_spec db (effective_int user_id) (effective_str date_from)
        (effective_str date_to) rows.
Proof.
  intros Hdb. unfold list_logs, execute_select_logs.
  destruct (list_logs_where user_id date_from date_to)
    as (where_ & Hbind & Hwhere).
  destruct (list_logs_query user_id date_from date_to) as [base args].
  simpl in Hbind. rewrite Hbind. eexists. split; [done|].
  by apply select_logs_spec.
Qed.

Lemma example_db_consistent : consistent example_db.
Proof.
  split; try by_compute.
  - apply Forall_forall. by_compute.
  - apply Forall_forall. by_compute.
Qed.

Lemma list_logs_exact_witness :
  consistent example_db
  ∧ ∃ rows,
      list_logs example_db (Some 5) (Some "2024-01-01") (Some "2024-01-31")
      = Ok rows
      ∧ listLogs_spec example_db (Some 5) (Some "2024-01-01")
          (Some "2024-01-31") rows.
Proof.
  split; [exact example_db_consistent|].
  exact (list_logs_exact example_db (Some 5) (Some "2024-01-01")
           (Some "2024-01-31") example_db_consistent).
Defined.

(** The scenario of the specification: of the logs of user 5 dated
    2024-01-05, 2024-01-10 and 2024-02-01, the range of January returns the
    first two, the later one first. *)
Example list_logs_january :
  fmap (M := result) (fmap (M := list) (λ r, (LogID r, Date r)))
    (list_logs example_db (Some 5) (Some "2024-01-01") (Some "2024-01-31"))
  = Ok [(2, "2024-01-10"); (1, "2024-01-05")].
Proof. reflexivity. Qed.

(** C1, as the specification words it, fails for a user filter of 0: no
    log of the example database belongs to a user 0, and [list_logs]
    returns all three. *)
Lemma list_logs_user_zero_not_exact :
  consistent example_db
  ∧ ∃ rows,
      list_logs example_db (Some 0) None None = Ok rows
      ∧ ¬ listLogs_spec example_db (Some 0) None None rows.
Proof.
  split; [apply example_db_consistent|].
  eexists. split; [reflexivity|].
  intros [Hperm _]. apply Permutation_length in Hperm.
  vm_compute in Hperm. discriminate.
Qed.

(** ** Writes and the cache *)

Lemma execute_insert_log_outcome `{Schema} (db : Store) (st : insert_log) :
  match execute_insert_log db st with
  | (Ok _, db') => ∃ row, ActivityLogs db' = ActivityLogs db ++ [row]
  | (Raise _, db') => db' = db
  end.
Proof.
  unfold execute_insert_log. destruct (proposed_log db st) as [new|e]; [|done].
  destruct (log_violation db _); [done|]. by eexists.
Qed.

Lemma add_log_outcome `{Schema} (db : Store) (user_id activity_id : Z)
    (date : string) (qty : pyfloat) (location_id : option Z) :
  match add_log db user_id activity_id date qty location_id with
  | (Ok _, db') => ∃ row, ActivityLogs db' = ActivityLogs db ++ [row]
  | (Raise _, db') => db' = db
  end.
Proof. apply execute_insert_log_outcome. Qed.

Lemma add_user_outcome `{Schema} (db : Store) (name email password : string)
    (carbon_goal : option pyfloat) (reg_date : string) :
  match add_user db name email password carbon_goal reg_date with
  | (Ok _, db') => ∃ row, Users db' = Users db ++ [row]
  | (Raise _, db') => db' = db
  end.
Proof.
  unfold add_user. destruct carbon_goal as [[q|]|]; try done;
    (destruct (user_violation db _); [done|by eexists]).
Qed.

Lemma delete_log_zero (db : Store) (log_id : Z) :
  (delete_log db log_id).1 = 0 → (delete_log db log_id).2 = db.
Proof.
  unfold delete_log. simpl. intros Hzero.
  rewrite filter_length_eq by lia. by destruct db.
Qed.

(** A read on an empty cache reaches the data access layer and returns
    what it answers on the current database. *)
Lemma cached_after_clear `{Schema} (now : Z) (c : read_call) (w : World) :
  cache w = ∅ →
  (cached now c w).1 = query (db w) c
  ∧ calls (cached now c w).2 = calls w ++ [Read c]
  ∧ db (cached now c w).2 = db w.
Proof. intros Hc. unfold cached. by rewrite Hc, lookup_empty. Qed.

(** A read within [ttl] of a cached one does not. *)
Lemma cached_hit `{Schema} (now fetched : Z) (c : read_call)
    (v : read_value) (w : World) :
  cache w !! c = Some (v, fetched) → now < fetched + ttl →
  cached now c w = (Ok v, w).
Proof.
  intros Hc Hnow. unfold cached. rewrite Hc.
  by destruct (Z.ltb_spec now (fetched + ttl)); [|lia].
Qed.

Lemma on_import_clears `{Schema, Builtins} (uid : Z) (df_imp : frame)
    (w : World) :
  valid_cols ⊆ columns df_imp → cache (on_import (Some uid) df_imp w) = ∅.
Proof.
  intros Hcols. unfold on_import. rewrite bool_decide_true by done. simpl.
  by destruct (import_loop uid df_imp (rows df_imp) 0 w).
Qed.

(** What a write handler does to the cache: it empties it, or it leaves
    it, and then it has left the database as well. *)
Lemma handle_cache `{Schema, Builtins} (a : write_action) (w : World) :
  cache (handle a w) = ∅
  ∨ (db (handle a w) = db w ∧ cache (handle a w) = cache w).
Proof.
  destruct a as [u_name u_email u_pass u_goal u_reg
                |ins_user_id activity_id log_date qty location_id
                |del_id
                |picked_user_id df_imp]; simpl.
  - unfold on_add_user.
    destruct (negb _ || negb _ || negb _); [by right|].
    pose proof (add_user_outcome (db w) u_name u_email u_pass
                  (Some u_goal) u_reg) as Hout.
    destruct (add_user _ _ _ _ _ _) as [[uid|e] db']; [by left|].
    right. by subst db'.
  - unfold on_add_log.
    pose proof (add_log_outcome (db w) ins_user_id activity_id log_date
                  qty location_id) as Hout.
    destruct (add_log _ _ _ _ _ _) as [[new_id|e] db']; [by left|].
    right. by subst db'.
  - unfold on_delete. destruct (del_id <=? 0); [by right|].
    pose proof (delete_log_zero (db w) del_id) as Hzero.
    destruct (delete_log (db w) del_id) as [deleted db']. simpl in *.
    destruct (Z.eqb_spec deleted 0) as [->|_]; simpl; [|by left].
    right. by rewrite Hzero.
  - unfold on_import.
    destruct (negb (bool_decide _)); [by right|].
    destruct picked_user_id as [uid|]; [|by right].
    left. by destruct (import_loop uid df_imp (rows df_imp) 0 w).
Qed.

(** C2, as the code has it.  Whenever one of the four write handlers
    changes the database, it leaves the read cache empty, so that the next
    read, whatever its arguments and whenever it comes, queries the data
    access layer and returns what the changed database answers.  A handler
    that does not empty the cache has left it, and the database, as they
    were. *)
Theorem write_invalidates_cache `{Schema, Builtins} (a : write_action)
    (w : World) :
  (db (handle a w) ≠ db w →
   cache (handle a w) = ∅
   ∧ ∀ now c,
       (cached now c (handle a w)).1 = query (db (handle a w)) c
       ∧ calls (cached now c (handle a w)).2
         = calls (handle a w) ++ [Read c])
  ∧ (cache (handle a w) ≠ ∅ →
     db (handle a w) = db w ∧ cache (handle a w) = cache w).
Proof.
  destruct (handle_cache a w) as [Hclear|[Hdb Hcache]].
  - split; [|done]. intros _. split; [done|]. intros now c.
    by destruct (cached_after_clear now c (handle a w) Hclear) as (? & ? & _).
  - split; [done|]. by intros _.
Qed.

Lemma write_invalidates_cache_witness :
  db (handle (Delete_log 2) warm_world) ≠ db warm_world
  ∧ cache warm_world ≠ ∅
  ∧ cache (handle (Delete_log 2) warm_world) = ∅.
Proof.
  assert (db (handle (Delete_log 2) warm_world) ≠ db warm_world) as Hchanged.
  { intros Heq. apply (f_equal (λ s, length (ActivityLogs s))) in Heq.
    vm_compute in Heq. discriminate. }
  split; [exact Hchanged|]. split.
  - intros Hempty. apply (f_equal (λ m, m !! load_users)) in Hempty.
    vm_compute in Hempty. discriminate.
  - exact (proj1 (proj1 (write_invalidates_cache (Delete_log 2) warm_world)
                    Hchanged)).
Defined.

(** An insert the database refuses, here for an activity that does not
    exist, leaves the cache as it was. *)
Example add_log_refused_keeps_cache :
  new_events warm_world
    (handle (Add_log 5 99 "2024-03-01" (FNum 1%Qc) None) warm_world)
  = [error_insert_failed (DatabaseError "foreign key ActivityID")]
  ∧ cache (handle (Add_log 5 99 "2024-03-01" (FNum 1%Qc) None) warm_world)
    = cache warm_world.
Proof. split; reflexivity. Qed.

(** C2, as the specification words it, fails for a delete that removes
    nothing: the DELETE is sent, the cache keeps its entries, and the next
    read is answered from the cache without a query. *)
Lemma delete_missing_keeps_cache :
  new_calls warm_world (handle (Delete_log 7) warm_world)
  = [Call_delete_log 7]
  ∧ is_write (Call_delete_log 7) = true
  ∧ cache (handle (Delete_log 7) warm_world) ≠ ∅
  ∧ new_calls (handle (Delete_log 7) warm_world)
      (cached 10 load_users (handle (Delete_log 7) warm_world)).2 = [].
Proof.
  split; [reflexivity|]. split; [reflexivity|]. split.
  - intros Hempty. apply (f_equal (λ m, m !! load_users)) in Hempty.
    vm_compute in Hempty. discriminate.
  - reflexivity.
Qed.

(** ** Bulk import *)

(** One row: the interface and the cache are not touched; [add_log] is
    called if and only if the cells convert; a row that fails leaves the
    database as it was and a row that succeeds adds one log. *)
Lemma import_row_outcome `{Schema, Builtins} (uid : Z) (df_imp : frame)
    (r : gmap string cell) (w : World) :
  let '(res, w') := import_row uid df_imp r w in
  ui w' = ui w
  ∧ cache w' = cache w
  ∧ calls w' = calls w ++ option_list (row_call uid df_imp r)
  ∧ match res with
    | Ok _ => ∃ row, ActivityLogs (db w') = ActivityLogs (db w) ++ [row]
    | Raise _ => db w' = db w
    end.
Proof.
  unfold import_row, row_call.
  destruct (import_args df_imp r) as [[[[a d] q] l]|e]; simpl.
  - pose proof (add_log_outcome (db w) uid a d q l) as Hout.
    by destruct (add_log (db w) uid a d q l) as [[new_id|e] db'].
  - by rewrite app_nil_r.
Qed.

Lemma import_loop_outcome `{Schema, Builtins} (uid : Z) (df_imp : frame)
    (todo : list (gmap string cell)) (inserted : Z) (w : World) :
  let '(inserted', w') := import_loop uid df_imp todo inserted w in
  ∃ reasons : list exn,
    (length reasons ≤ length todo)%nat
    ∧ inserted' = inserted + (Z.of_nat (length todo) - Z.of_nat (length reasons))
    ∧ ui w' = ui w ++ (warning_row_failed <$> reasons)
    ∧ cache w' = cache w
    ∧ calls w' = calls w ++ omap (row_call uid df_imp) todo
    ∧ Z.of_nat (length (ActivityLogs (db w')))
      = Z.of_nat (length (ActivityLogs (db w)))
        + (Z.of_nat (length todo) - Z.of_nat (length reasons)).
Proof.
  revert inserted w. induction todo as [|r todo IH]; intros inserted w.
  { exists []. simpl. rewrite !app_nil_r.
    split; [lia|]. split; [lia|]. split; [done|]. split; [done|].
    split; [done|lia]. }
  cbn [import_loop].
  pose proof (import_row_outcome uid df_imp r w) as Hrow.
  destruct (import_row uid df_imp r w) as [[[]|ie] w1];
    destruct Hrow as (Hui & Hcache & Hcalls & Hdb).
  - specialize (IH (inserted + 1) w1).
    destruct (import_loop uid df_imp todo (inserted + 1) w1) as [ins' w'].
    destruct IH as (reasons & Hlen & Hins & Hui' & Hcache' & Hcalls' & Hdb').
    destruct Hdb as [row Hdb]. exists reasons.
    rewrite Hui', Hui, Hcache', Hcache, Hcalls', Hcalls, Hdb', Hdb.
    rewrite length_app. cbn [length omap list_omap].
    split; [lia|]. split; [lia|]. split; [done|]. split; [done|].
    split; [|lia]. rewrite <-(assoc_L (++)). f_equal.
    by destruct (row_call uid df_imp r).
  - specialize (IH inserted (emit (warning_row_failed ie) w1)).
    destruct (import_loop uid df_imp todo inserted
                (emit (warning_row_failed ie) w1)) as [ins' w'].
    destruct IH as (reasons & Hlen & Hins & Hui' & Hcache' & Hcalls' & Hdb').
    exists (ie :: reasons). simpl in Hui', Hcache', Hcalls', Hdb'.
    rewrite Hui', Hui, Hcache', Hcache, Hcalls', Hcalls, Hdb', Hdb.
    cbn [length fmap list_fmap omap list_omap].
    split; [lia|]. split; [lia|].
    split; [by rewrite <-(assoc_L (++))|]. split; [done|].
    split; [|lia]. rewrite <-(assoc_L (++)). f_equal.
    by destruct (row_call uid df_imp r).
Qed.

(** The rows after a failing row are imported as if it had not been
    there to fail: the loop over [todo1 ++ todo2] is the loop over [todo2]
    started where the loop over [todo1] ended. *)
Lemma import_loop_app `{Schema, Builtins} (uid : Z) (df_imp : frame)
    (todo1 todo2 : list (gmap string cell)) (inserted : Z) (w : World) :
  import_loop uid df_imp (todo1 ++ todo2) inserted w
  = let '(inserted1, w1) := import_loop uid df_imp todo1 inserted w in
    import_loop uid df_imp todo2 inserted1 w1.
Proof.
  revert inserted w. induction todo1 as [|r todo1 IH]; intros inserted w;
    [done|].
  simpl. by destruct (import_row uid df_imp r w) as [[[]|ie] w1].
Qed.

(** The counts of an import.  Bulk import tries the rows one after the
    other, calling
    [add_log] for each row whose cells convert; a row that fails adds a
    warning with its reason and nothing else, and the rows after it are
    still tried.  For [N] rows of which [k] fail, the count reported and
    the number of logs added are both [N - k], and the handler ends, with
    the toast and a cleared cache, without raising. *)
Theorem import_best_effort `{Schema, Builtins} (uid : Z) (df_imp : frame)
    (w : World) :
  valid_cols ⊆ columns df_imp →
  let N := Z.of_nat (length (rows df_imp)) in
  let w' := on_import (Some uid) df_imp w in
  ∃ reasons : list exn,
    let k := Z.of_nat (length reasons) in
    0 ≤ k ≤ N
    ∧ new_events w w'
      = (warning_row_failed <$> reasons) ++ [toast_imported (N - k)]
    ∧ Z.of_nat (length (ActivityLogs (db w')))
      = Z.of_nat (length (ActivityLogs (db w))) + (N - k)
    ∧ new_calls w w' = omap (row_call uid df_imp) (rows df_imp)
    ∧ cache w' = ∅.
Proof.
  intros Hcols N w'. subst w'. unfold on_import.
  rewrite bool_decide_true by done. cbn [negb].
  pose proof (import_loop_outcome uid df_imp (rows df_imp) 0 w) as Hloop.
  destruct (import_loop uid df_imp (rows df_imp) 0 w) as [inserted w1].
  destruct Hloop as (reasons & Hlen & Hins & Hui & Hcache & Hcalls & Hdb).
  exists reasons. unfold new_events, new_calls. simpl.
  rewrite Hui, Hcalls, Hdb, Hins, <-(assoc_L (++)), !drop_app_length.
  subst N. split; [lia|]. split; [by rewrite Z.add_0_l|]. done.
Qed.

Lemma import_best_effort_witness :
  valid_cols ⊆ columns example_frame
  ∧ ∃ reasons : list exn,
      0 ≤ Z.of_nat (length reasons) ≤ 3
      ∧ new_events example_world
          (on_import (Some 5) example_frame example_world)
        = (warning_row_failed <$> reasons)
          ++ [toast_imported (3 - Z.of_nat (length reasons))]
      ∧ Z.of_nat (length (ActivityLogs
                   (db (on_import (Some 5) example_frame example_world))))
        = 3 + (3 - Z.of_nat (length reasons))
      ∧ new_calls example_world
          (on_import (Some 5) example_frame example_world)
        = omap (row_call 5 example_frame) (rows example_frame)
      ∧ cache (on_import (Some 5) example_frame example_world) = ∅.
Proof.
  assert (valid_cols ⊆ columns example_frame) as Hcols by by_compute.
  split; [exact Hcols|].
  exact (import_best_effort 5 example_frame example_world Hcols).
Defined.

(** The scenario of the specification: of three rows, the second with a
    quantity that is no number, two are inserted and one failure is
    reported. *)
Example import_three_rows :
  new_events example_world (on_import (Some 5) example_frame example_world)
  = [warning_row_failed (ValueError "could not convert string to float");
     toast_imported 2]
  ∧ AL_Date <$> ActivityLogs
                  (db (on_import (Some 5) example_frame example_world))
    = ["2024-01-05"; "2024-01-10"; "2024-02-01"; "2024-03-01"; "2024-03-03"]
  ∧ new_calls example_world (on_import (Some 5) example_frame example_world)
    = [Call_add_log 5 1 "2024-03-01" (FNum (Q2Qc (5 # 2))) None;
       Call_add_log 5 2 "2024-03-03" (FNum 1%Qc) None].
Proof. split; [|split]; reflexivity. Qed.

(* ================================================================= *)
(** * Part V.  Further properties of the two files *)
(* ================================================================= *)

(** ** Master data *)

(** X1.  [list_users] returns one row per stored user, none twice and
    none invented, ordered by UserID ascending. *)
Theorem list_users_sorted (db : Store) :
  list_users db ≡ₚ user_view <$> Users db
  ∧ StronglySorted (λ x y, uv_UserID x ≤ uv_UserID y) (list_users db).
Proof.
  unfold list_users. split.
  - by rewrite msort_Permutation.
  - eapply (StronglySorted_fmap user_view
              (λ x y, U_UserID x <=? U_UserID y)).
    + intros x y Hxy%Is_true_true. simpl. lia.
    + apply msort_sorted; intros; lia.
Qed.

(** X2.  [list_locations] returns the stored locations, each once, and
    in the order of the collation of the City column, whenever that
    collation compares any two texts and is transitive. *)
Theorem list_locations_sorted `{Schema} (db : Store) :
  (∀ a b, City_collation a b = true ∨ City_collation b a = true) →
  (∀ a b c, City_collation a b = true → City_collation b c = true →
            City_collation a c = true) →
  list_locations db ≡ₚ Locations db
  ∧ StronglySorted (λ x y, City_collation (L_City x) (L_City y))
      (list_locations db).
Proof.
  intros Htotal Htrans.
  unfold list_locations. split; [apply msort_Permutation|].
  apply (msort_sorted (λ x y, City_collation (L_City x) (L_City y))).
  - intros x y. apply Htotal.
  - intros x y z. apply Htrans.
Qed.

Lemma list_locations_sorted_witness :
  (∀ a b, City_collation a b = true ∨ City_collation b a = true)
  ∧ (∀ a b c, City_collation a b = true → City_collation b c = true →
              City_collation a c = true)
  ∧ list_locations example_db ≡ₚ Locations example_db
  ∧ StronglySorted (λ x y, City_collation (L_City x) (L_City y))
      (list_locations example_db).
Proof.
  assert (∀ a b, City_collation a b = true ∨ City_collation b a = true)
    as Htotal by apply String.leb_total.
  assert (∀ a b c, City_collation a b = true → City_collation b c = true →
                   City_collation a c = true)
    as Htrans by apply String_leb_trans.
  split; [exact Htotal|]. split; [exact Htrans|].
  exact (list_locations_sorted example_db Htotal Htrans).
Defined.

Lemma elem_of_left_join {A} (o : option A) (l : list A) :
  o ∈ left_join l ↔ (l = [] ∧ o = None) ∨ (∃ x, x ∈ l ∧ o = Some x).
Proof.
  unfold left_join. destruct l as [|y l].
  - rewrite list_elem_of_singleton. split.
    + intros ->. by left.
    + intros [[_ ->]|(x & Hx & _)]; [done|by apply elem_of_nil in Hx].
  - rewrite list_elem_of_fmap. split.
    + intros (x & -> & Hx). right. by exists x.
    + intros [[? _]|(x & Hx & ->)]; [done|by exists x].
Qed.

Lemma elem_of_list_activities (db : Store) (v : ActivityView) :
  v ∈ list_activities db ↔
  ∃ a c ef,
    a ∈ Activities db
    ∧ c ∈ filter (λ c, A_CategoryID a = C_CategoryID c) (Categories db)
    ∧ ef ∈ left_join (filter (λ ef, EF_ActivityID ef = A_ActivityID a)
                        (EmissionFactors db))
    ∧ v = activity_view a c ef.
Proof.
  unfold list_activities. rewrite list_elem_of_fmap. split.
  - intros ([[a c] ef] & -> & Hj). apply msort_elem_of in Hj.
    apply list_elem_of_bind in Hj as (a' & Hj & Ha).
    apply list_elem_of_bind in Hj as (c' & Hj & Hc).
    apply list_elem_of_bind in Hj as (ef' & Hj & Hef).
    apply list_elem_of_singleton in Hj. injection Hj as -> -> ->.
    by exists a', c', ef'.
  - intros (a & c & ef & Ha & Hc & Hef & ->). exists (a, c, ef).
    split; [done|]. apply msort_elem_of.
    apply list_elem_of_bind. exists a. split; [|done].
    apply list_elem_of_bind. exists c. split; [|done].
    apply list_elem_of_bind. exists ef. split; [|done].
    by apply list_elem_of_singleton.
Qed.

(** X3.  [list_activities] returns exactly the activities paired with
    their category, ordered by ActivityID ascending; the emission value of
    a row is that of a factor of the activity, and is missing exactly when
    the activity has no factor.  An activity without category is not
    listed. *)
Theorem list_activities_join (db : Store) :
  StronglySorted (λ x y, av_ActivityID x ≤ av_ActivityID y)
    (list_activities db)
  ∧ ∀ v, v ∈ list_activities db ↔
      ∃ a c, a ∈ Activities db ∧ c ∈ Categories db
             ∧ A_CategoryID a = C_CategoryID c
             ∧ ((∃ ef, ef ∈ EmissionFactors db
                       ∧ EF_ActivityID ef = A_ActivityID a
                       ∧ v = activity_view a c (Some ef))
                ∨ ((∀ ef, ef ∈ EmissionFactors db →
                          EF_ActivityID ef ≠ A_ActivityID a)
                   ∧ v = activity_view a c None)).
Proof.
  split.
  - unfold list_activities.
    eapply (StronglySorted_fmap _
              (λ x y : ActivityRow * CategoryRow * option EmissionFactorRow,
                 A_ActivityID x.1.1 <=? A_ActivityID y.1.1)).
    + intros [[a1 c1] e1] [[a2 c2] e2] Hxy%Is_true_true. simpl in *. lia.
    + apply msort_sorted; intros; lia.
  - intros v. rewrite elem_of_list_activities. split.
    + intros (a & c & ef & Ha & [Hac Hc]%list_elem_of_filter & Hef & ->).
      exists a, c. split; [done|]. split; [done|]. split; [done|].
      apply elem_of_left_join in Hef as [[Hnil ->]|(e & He & ->)].
      * right. split; [|done]. intros e He Heq.
        assert (e ∈ filter (λ ef, EF_ActivityID ef = A_ActivityID a)
                      (EmissionFactors db)) as Hin
          by by apply list_elem_of_filter.
        rewrite Hnil in Hin. by apply elem_of_nil in Hin.
      * apply list_elem_of_filter in He as [Heq He]. left. by exists e.
    + intros (a & c & Ha & Hc & Hac & [(e & He & Heq & ->)|[Hnone ->]]).
      * exists a, c, (Some e). split; [done|].
        split; [by apply list_elem_of_filter|]. split; [|done].
        apply elem_of_left_join. right. exists e.
        split; [|done]. by apply list_elem_of_filter.
      * exists a, c, None. split; [done|].
        split; [by apply list_elem_of_filter|]. split; [|done].
        apply elem_of_left_join. left. split; [|done].
        apply filter_none. intros e He Heq. by apply (Hnone e).
Qed.

(** ** [list_logs], further *)

(** X4.  Whatever filters it is given, [list_logs] appends as many
    arguments as placeholders, so its statement is never refused for its
    argument tuple: it returns rows for every input. *)
Theorem list_logs_never_raises (db : Store) (user_id : option Z)
    (date_from date_to : option string) :
  length (list_logs_query user_id date_from date_to).1
  = length (list_logs_query user_id date_from date_to).2
  ∧ ∃ rows, list_logs db user_id date_from date_to = Ok rows.
Proof.
  split.
  - unfold list_logs_query.
    destruct (truthy_int user_id), (truthy_str date_from),
      (truthy_str date_to); reflexivity.
  - unfold list_logs, execute_select_logs.
    destruct (list_logs_where user_id date_from date_to)
      as (where_ & Hbind & _).
    destruct (list_logs_query user_id date_from date_to) as [base args].
    simpl in Hbind. rewrite Hbind. by eexists.
Qed.

Lemma list_logs_select (db : Store) (user_id : option Z)
    (date_from date_to : option string) :
  ∃ where_,
    list_logs db user_id date_from date_to = Ok (select_logs db where_)
    ∧ ∀ al, where_ al
            = matches (effective_int user_id) (effective_str date_from)
                (effective_str date_to) al.
Proof.
  unfold list_logs, execute_select_logs.
  destruct (list_logs_where user_id date_from date_to)
    as (where_ & Hbind & Hwhere).
  destruct (list_logs_query user_id date_from date_to) as [base args].
  simpl in Hbind. rewrite Hbind. by exists where_.
Qed.

Lemma elem_of_select_logs (db : Store) (where_ : LogRow → bool)
    (r : LogView) :
  r ∈ select_logs db where_ ↔
  ∃ j, j ∈ logs_joined db ∧ where_ (log_of j) = true ∧ r = log_view j.
Proof.
  unfold select_logs. rewrite list_elem_of_fmap. split.
  - intros (j & -> & Hj). apply msort_elem_of in Hj.
    apply list_elem_of_filter in Hj as [Hw%Is_true_true Hj]. by exists j.
  - intros (j & Hj & Hw & ->). exists j. split; [done|].
    apply msort_elem_of, list_elem_of_filter. by rewrite Hw.
Qed.

Lemma Date_log_view
    (j : LogRow * UserRow * ActivityRow * option LocationRow) :
  Date (log_view j) = AL_Date (log_of j)
  ∧ LogID (log_view j) = AL_LogID (log_of j).
Proof. by destruct j as [[[al u] a] l]. Qed.

(** X5.  Every row [list_logs] returns under filters has its date within
    the bounds in force, and is among the rows the call without filters
    returns: a filter only ever removes rows. *)
Theorem list_logs_rows_in_range (db : Store) (user_id : option Z)
    (date_from date_to : option string) :
  ∃ rows all,
    list_logs db user_id date_from date_to = Ok rows
    ∧ list_logs db None None None = Ok all
    ∧ ∀ r, r ∈ rows →
        r ∈ all
        ∧ (∀ d, effective_str date_from = Some d → String.leb d (Date r) = true)
        ∧ (∀ d, effective_str date_to = Some d → String.leb (Date r) d = true).
Proof.
  destruct (list_logs_select db user_id date_from date_to)
    as (where_ & -> & Hwhere).
  destruct (list_logs_select db None None None) as (all_ & -> & Hall).
  eexists _, _. split; [done|]. split; [done|].
  intros r (j & Hj & Hw & ->)%elem_of_select_logs.
  rewrite Hwhere in Hw. unfold matches in Hw.
  apply andb_true_iff in Hw as [[_ Hfrom]%andb_true_iff Hto].
  destruct (Date_log_view j) as [-> _].
  split; [|split].
  - apply elem_of_select_logs. exists j. split; [done|]. split; [|done].
    by rewrite Hall.
  - intros d Hd. by rewrite Hd in Hfrom.
  - intros d Hd. by rewrite Hd in Hto.
Qed.

Lemma String_ltb_empty (s : string) : String.ltb s "" = false.
Proof. by destruct s. Qed.

(** X6.  A range whose upper bound lies before its lower bound selects
    nothing: [list_logs] returns no row. *)
Theorem list_logs_empty_range (db : Store) (user_id : option Z)
    (date_from date_to : string) :
  date_to ≠ "" →
  String.ltb date_to date_from = true →
  list_logs db user_id (Some date_from) (Some date_to) = Ok [].
Proof.
  intros Hto Hlt.
  assert (date_from ≠ "") as Hfrom.
  { intros ->. by rewrite String_ltb_empty in Hlt. }
  destruct (list_logs_select db user_id (Some date_from) (Some date_to))
    as (where_ & -> & Hwhere).
  f_equal. unfold select_logs. rewrite filter_none; [done|].
  intros j _ Hw%Is_true_true. rewrite Hwhere in Hw.
  unfold matches, effective_str, truthy_str in Hw. simpl in Hw.
  rewrite !bool_decide_false in Hw by done. simpl in Hw.
  apply andb_true_iff in Hw as [[_ Hf]%andb_true_iff Ht].
  rewrite String_ltb_leb, negb_true_iff in Hlt.
  by rewrite (String_leb_trans _ _ _ Hf Ht) in Hlt.
Qed.

Lemma list_logs_empty_range_witness :
  "2024-01-31" ≠ ""
  ∧ String.ltb "2024-01-31" "2024-02-01" = true
  ∧ list_logs example_db (Some 5) (Some "2024-02-01") (Some "2024-01-31")
    = Ok [].
Proof.
  assert ("2024-01-31" ≠ "") as Hne by done.
  split; [exact Hne|]. split; [reflexivity|].
  exact (list_logs_empty_range example_db (Some 5) "2024-02-01" "2024-01-31"
           Hne eq_refl).
Defined.

Lemma elem_of_logs_joined (db : Store) (al : LogRow) (u : UserRow)
    (a : ActivityRow) (l : option LocationRow) :
  (al, u, a, l) ∈ logs_joined db ↔
  al ∈ ActivityLogs db
  ∧ u ∈ Users db ∧ U_UserID u = AL_UserID al
  ∧ a ∈ Activities db ∧ A_ActivityID a = AL_ActivityID al
  ∧ l ∈ left_join (filter (λ l, Some (L_LocationID l) = AL_LocationID al)
                     (Locations db)).
Proof.
  unfold logs_joined. split.
  - intros Hj.
    apply list_elem_of_bind in Hj as (al' & Hj & Hal).
    apply list_elem_of_bind in Hj as (u' & Hj & [Hu1 Hu2]%list_elem_of_filter).
    apply list_elem_of_bind in Hj as (a' & Hj & [Ha1 Ha2]%list_elem_of_filter).
    apply list_elem_of_bind in Hj as (l' & Hj & Hl).
    apply list_elem_of_singleton in Hj. injection Hj as -> -> -> ->.
    done.
  - intros (Hal & Hu & Hu' & Ha & Ha' & Hl).
    apply list_elem_of_bind. exists al. split; [|done].
    apply list_elem_of_bind. exists u.
    split; [|by apply list_elem_of_filter].
    apply list_elem_of_bind. exists a.
    split; [|by apply list_elem_of_filter].
    apply list_elem_of_bind. exists l. split; [|done].
    by apply list_elem_of_singleton.
Qed.

(** X7.  Every row [list_logs] returns is a stored log joined with the
    stored user and activity it refers to: it carries the id, date,
    quantity and emission of the log unchanged and the names of that user
    and activity.  City and Country are missing together, exactly when no
    stored location has the location id of the log.  A log whose user or
    activity is not stored is not returned. *)
Theorem list_logs_row_join (db : Store) (user_id : option Z)
    (date_from date_to : option string) :
  ∃ rows,
    list_logs db user_id date_from date_to = Ok rows
    ∧ ∀ r, r ∈ rows →
        ∃ al u a,
          al ∈ ActivityLogs db ∧ u ∈ Users db ∧ a ∈ Activities db
          ∧ U_UserID u = AL_UserID al ∧ A_ActivityID a = AL_ActivityID al
          ∧ LogID r = AL_LogID al ∧ UserName r = U_Name u
          ∧ ActivityName r = A_Name a ∧ Date r = AL_Date al
          ∧ Quantity r = AL_Quantity al
          ∧ CalculatedEmission r = AL_CalculatedEmission al
          ∧ (City r = None ↔ Country r = None)
          ∧ (City r = None ↔
             ∀ l, l ∈ Locations db →
                  Some (L_LocationID l) ≠ AL_LocationID al).
Proof.
  destruct (list_logs_select db user_id date_from date_to)
    as (where_ & -> & _).
  eexists. split; [done|].
  intros r ([[[al u] a] l] & Hj & _ & ->)%elem_of_select_logs.
  apply elem_of_logs_joined in Hj as (Hal & Hu & Hu' & Ha & Ha' & Hl).
  exists al, u, a. simpl.
  do 11 (split; [done|]). split.
  - by destruct l.
  - apply elem_of_left_join in Hl as [[Hnil ->]|(loc & Hloc & ->)]; simpl.
    + split; [|done]. intros _ loc Hloc Heq.
      assert (loc ∈ filter (λ l, Some (L_LocationID l) = AL_LocationID al)
                      (Locations db)) as Hin
        by by apply list_elem_of_filter.
      rewrite Hnil in Hin. by apply elem_of_nil in Hin.
    + apply list_elem_of_filter in Hloc as [Heq Hloc].
      split; [done|]. intros Hnone. by destruct (Hnone loc Hloc).
Qed.

(** ** Writing, then reading *)

Lemma execute_insert_log_ok `{Schema} (db db' : Store) (st : insert_log)
    (new_id : Z) :
  execute_insert_log db st = (Ok new_id, db') →
  ∃ row, ActivityLogs db' = ActivityLogs db ++ [row]
         ∧ AL_LogID row = new_id
         ∧ Users db' = Users db ∧ Activities db' = Activities db
         ∧ Locations db' = Locations db.
Proof.
  unfold execute_insert_log.
  destruct (proposed_log db st) as [new|e]; [|by inversion 1].
  destruct (log_violation db _); inversion 1; subst. by eexists.
Qed.

Lemma select_logs_lists (db : Store) (where_ : LogRow → bool)
    (user_id : option Z) (date_from date_to : option string) (al : LogRow) :
  consistent db →
  (∀ al, where_ al = matches user_id date_from date_to al) →
  al ∈ ActivityLogs db →
  matches user_id date_from date_to al = true →
  AL_LogID al ∈ LogID <$> select_logs db where_.
Proof.
  intros Hdb Hwhere Hal Hm.
  destruct (select_logs_spec db where_ user_id date_from date_to Hdb Hwhere)
    as (Hperm & _).
  rewrite Hperm. apply list_elem_of_fmap_2, list_elem_of_filter.
  by rewrite Hm.
Qed.

(** X8.  A log [add_log] has inserted is read back: when [add_log]
    returns an id, the table has gained one row with that id, and on
    consistent data every [list_logs] whose filters that row satisfies
    returns a row with the id. *)
Theorem add_log_then_list_logs `{Schema} (db db' : Store)
    (user_id activity_id : Z) (date : string) (qty : pyfloat)
    (location_id : option Z) (new_id : Z) :
  add_log db user_id activity_id date qty location_id = (Ok new_id, db') →
  consistent db' →
  ∃ row,
    ActivityLogs db' = ActivityLogs db ++ [row]
    ∧ AL_LogID row = new_id
    ∧ ∀ u f t,
        matches (effective_int u) (effective_str f) (effective_str t) row
        = true →
        ∃ rows, list_logs db' u f t = Ok rows ∧ new_id ∈ LogID <$> rows.
Proof.
  intros Hadd Hdb'.
  apply execute_insert_log_ok in Hadd as (row & Hlogs & Hid & _).
  exists row. split; [done|]. split; [done|].
  intros u f t Hm.
  destruct (list_logs_select db' u f t) as (where_ & -> & Hwhere).
  eexists. split; [done|]. rewrite <-Hid.
  eapply select_logs_lists; [done..| |done].
  rewrite Hlogs, elem_of_app, list_elem_of_singleton. by right.
Qed.

Lemma add_log_then_list_logs_witness :
  add_log example_db 5 1 "2024-03-01" (FNum (Q2Qc 3)) None
  = (Ok 4, (add_log example_db 5 1 "2024-03-01" (FNum (Q2Qc 3)) None).2)
  ∧ consistent (add_log example_db 5 1 "2024-03-01" (FNum (Q2Qc 3)) None).2
  ∧ ∃ rows,
      list_logs (add_log example_db 5 1 "2024-03-01" (FNum (Q2Qc 3)) None).2
        (Some 5) (Some "2024-03-01") None = Ok rows
      ∧ 4 ∈ LogID <$> rows.
Proof.
  set (db' := (add_log example_db 5 1 "2024-03-01" (FNum (Q2Qc 3)) None).2).
  assert (add_log example_db 5 1 "2024-03-01" (FNum (Q2Qc 3)) None
          = (Ok 4, db')) as Hadd by reflexivity.
  assert (consistent db') as Hdb'.
  { split; try by_compute.
    - apply Forall_forall. by_compute.
    - apply Forall_forall. by_compute. }
  split; [exact Hadd|]. split; [exact Hdb'|].
  destruct (add_log_then_list_logs example_db db' 5 1 "2024-03-01"
              (FNum (Q2Qc 3)) None 4 Hadd Hdb') as (row & Hlogs & Hid & Hlist).
  apply Hlist.
  assert (last (ActivityLogs db') = Some row) as Hlast
    by (rewrite Hlogs; apply last_snoc).
  vm_compute in Hlast. injection Hlast as <-. reflexivity.
Defined.

(** X9.  A deleted log is gone: after [delete_log], no [list_logs] call,
    whatever its filters, returns a row with the deleted id, and deleting
    the same id again removes nothing and changes nothing. *)
Theorem delete_log_then_list_logs (db : Store) (log_id : Z)
    (user_id : option Z) (date_from date_to : option string) :
  (∃ rows,
     list_logs (delete_log db log_id).2 user_id date_from date_to = Ok rows
     ∧ log_id ∉ LogID <$> rows)
  ∧ delete_log (delete_log db log_id).2 log_id
    = (0, (delete_log db log_id).2).
Proof.
  split.
  - destruct (list_logs_select (delete_log db log_id).2 user_id date_from
                date_to) as (where_ & -> & _).
    eexists. split; [done|].
    intros (r & Hid & Hr)%list_elem_of_fmap.
    apply elem_of_select_logs in Hr as ([[[al u] a] l] & Hj & _ & ->).
    apply elem_of_logs_joined in Hj as (Hal & _).
    simpl in Hal, Hid. by apply list_elem_of_filter in Hal as [? _].
  - unfold delete_log. simpl.
    rewrite (filter_all _ (filter _ (ActivityLogs db))).
    + f_equal. lia.
    + by intros al [? _]%list_elem_of_filter.
Qed.

(** ** [add_user] *)

(** X10.  A user [add_user] has inserted is listed: when [add_user]
    returns an id, it is the next AUTO_INCREMENT value, [list_users] then
    returns a row with that id and the given name and email, and every
    user listed before is still listed. *)
Theorem add_user_then_list_users `{Schema} (db db' : Store)
    (name email password : string) (carbon_goal : option pyfloat)
    (reg_date : string) (uid : Z) :
  add_user db name email password carbon_goal reg_date = (Ok uid, db') →
  uid = next_UserID db
  ∧ (∃ v, v ∈ list_users db' ∧ uv_UserID v = uid ∧ uv_Name v = name
          ∧ uv_Email v = email ∧ uv_RegistrationDate v = reg_date)
  ∧ (∀ v, v ∈ list_users db → v ∈ list_users db')
  ∧ length (list_users db') = S (length (list_users db)).
Proof.
  unfold add_user. intros Hadd.
  assert (∃ goal,
            let row := {| U_UserID := next_UserID db; U_Name := name;
                          U_Email := email; U_Password := password;
                          U_CarbonGoal := goal;
                          U_RegistrationDate := reg_date |} in
            uid = next_UserID db ∧ db' = with_user db row) as (goal & -> & ->).
  { destruct carbon_goal as [[q|]|]; try by inversion Hadd.
    - destruct (user_violation db _); inversion Hadd; subst.
      eexists. split; reflexivity.
    - destruct (user_violation db _); inversion Hadd; subst.
      eexists. split; reflexivity. }
  clear Hadd. unfold list_users. simpl. split; [done|]. split; [|split].
  - eexists. split.
    + apply list_elem_of_fmap_2, msort_elem_of.
      apply elem_of_app. right. by apply list_elem_of_singleton.
    + done.
  - intros v (u & -> & Hu%msort_elem_of)%list_elem_of_fmap.
    apply list_elem_of_fmap_2, msort_elem_of, elem_of_app. by left.
  - rewrite !length_fmap, !msort_length, length_app. simpl. lia.
Qed.

Lemma add_user_then_list_users_witness :
  add_user example_db "Mira" "mira@example.org" "z" None "2024-03-01"
  = (Ok 6, (add_user example_db "Mira" "mira@example.org" "z" None
              "2024-03-01").2)
  ∧ ∃ v,
      v ∈ list_users (add_user example_db "Mira" "mira@example.org" "z" None
                        "2024-03-01").2
      ∧ uv_UserID v = 6 ∧ uv_Name v = "Mira".
Proof.
  assert (add_user example_db "Mira" "mira@example.org" "z" None "2024-03-01"
          = (Ok 6, (add_user example_db "Mira" "mira@example.org" "z" None
                      "2024-03-01").2)) as Hadd by reflexivity.
  split; [exact Hadd|].
  destruct (add_user_then_list_users _ _ _ _ _ _ _ _ Hadd)
    as (_ & (v & Hv & Hid & Hname & _) & _).
  by exists v.
Defined.

(** ** Stored procedures *)

Lemma foldl_keep_last {A} (init : A) (l : list A) :
  foldl (λ _ r, r) init l = default init (last l).
Proof.
  revert init. induction l as [|x l IH]; intros init; [done|].
  simpl. rewrite IH, last_cons. by destruct (last l).
Qed.

(** X11.  Of the result sets a procedure produces, the two procedure
    calls return the last one, and the empty list when there is none. *)
Theorem procedures_return_last_result_set `{Schema} (db : Store)
    (user_id year month : Z) (start_date end_date : string) :
  monthly_emissions_by_category db user_id year month
  = default [] (last (GetMonthlyEmissionsByCategory db user_id year month))
  ∧ activity_ranking db user_id start_date end_date
    = default []
        (last (GetActivityRankingByEmission db user_id start_date end_date)).
Proof.
  unfold monthly_emissions_by_category, activity_ranking, last_result_set.
  by rewrite !foldl_keep_last.
Qed.

(** ** Pages *)

Lemma paginate_df_nonempty {A} (df : list A) (page page_size : Z) :
  df ≠ [] → 0 < page_size →
  let R := Z.of_nat (length df) in
  let T := (R + page_size - 1) / page_size in
  _paginate_df df page page_size
  = Ok (take (Z.to_nat page_size)
          (drop (Z.to_nat ((Z.max 1 (Z.min page T) - 1) * page_size)) df), T)
  ∧ 1 ≤ T ∧ page_size * (T - 1) < R ≤ page_size * T.
Proof.
  intros Hdf HP R T. unfold _paginate_df.
  destruct df as [|a df]; [done|]. simpl df_empty. cbv iota.
  assert (0 < R) as HR by (subst R; simpl; lia).
  unfold floordiv. destruct (Z.eqb_spec page_size 0) as [|_]; [lia|].
  unfold mbind, result_bind, mret, result_ret. fold R. fold T.
  pose proof (Z.div_mod (R + page_size - 1) page_size ltac:(lia)) as Hdm.
  pose proof (Z.mod_pos_bound (R + page_size - 1) page_size HP) as Hmod.
  fold T in Hdm.
  assert (page_size * (T - 1) < R ≤ page_size * T) as Hceil by nia.
  assert (1 ≤ T) as HT by nia.
  split; [|done]. by rewrite iloc_forward by nia.
Qed.

Lemma chunks_concat {A} (k n : nat) (l : list A) :
  (length l ≤ n * k)%nat →
  mjoin ((λ i, take k (drop (i * k) l)) <$> seq 0 n) = l.
Proof.
  revert l. induction n as [|n IH]; intros l Hl.
  { by destruct l; [|simpl in Hl; lia]. }
  rewrite <-cons_seq, fmap_cons, <-fmap_S_seq, <-list_fmap_compose.
  simpl mjoin. rewrite drop_0.
  trans (take k l ++ drop k l); [|apply take_drop]. f_equal.
  rewrite <-(IH (drop k l)) by (rewrite length_drop; lia).
  f_equal. apply list_fmap_ext. intros _ i _. simpl.
  by rewrite drop_drop.
Qed.

(** X12.  The pages tile the frame: for a page size [P > 0], the views
    [_paginate_df] returns for the pages 1 to [totalPages], put one after
    the other, are the frame itself; every row is on one page, in
    order. *)
Theorem pages_tile_the_frame {A} (df : list A) (page_size : Z) :
  0 < page_size →
  mjoin ((λ i, page_view df page_size (Z.of_nat (S i)))
           <$> seq 0 (Z.to_nat (page_count df page_size)))
  = df.
Proof.
  intros HP. destruct (decide (df = [])) as [->|Hdf]; [done|].
  unfold page_count.
  destruct (paginate_df_nonempty df 1 page_size Hdf HP) as (-> & HT & Hceil).
  set (T := (Z.of_nat (length df) + page_size - 1) / page_size) in *.
  etrans; [|apply (chunks_concat (Z.to_nat page_size) (Z.to_nat T) df); nia].
  f_equal. apply list_fmap_ext. intros _ i Hi%list_elem_of_lookup_2.
  apply elem_of_seq in Hi. unfold page_view.
  destruct (paginate_df_nonempty df (Z.of_nat (S i)) page_size Hdf HP)
    as (-> & _). fold T.
  replace (Z.max 1 (Z.min (Z.of_nat (S i)) T) - 1) with (Z.of_nat i) by lia.
  by rewrite Z2Nat.inj_mul, Nat2Z.id by lia.
Qed.

Lemma pages_tile_the_frame_witness :
  0 < 2
  ∧ page_count [1; 2; 3; 4; 5] 2 = 3
  ∧ mjoin ((λ i, page_view [1; 2; 3; 4; 5] 2 (Z.of_nat (S i)))
             <$> seq 0 (Z.to_nat (page_count [1; 2; 3; 4; 5] 2)))
    = [1; 2; 3; 4; 5].
Proof.
  split; [lia|]. split; [reflexivity|].
  exact (pages_tile_the_frame [1; 2; 3; 4; 5] 2 ltac:(lia)).
Defined.

Lemma sort_values_length (by_ : column) (ascending : bool)
    (df : list LogView) :
  length (sort_values by_ ascending df) = length df.
Proof.
  destruct (sort_values_unfold by_ ascending df)
    as (K & key & leb & HK & -> & _).
  by rewrite sort_values_by_Permutation.
Qed.

(** X13.  On a frame that has rows, with a page size [P > 0], the Logs
    tab always shows between 1 and [P] rows, taken in order from the
    sorted frame.  It shows the requested page (the first one for a page
    number below 1) and no message when the page number is at most the
    page count, and otherwise the first page with one warning that names
    the page count. *)
Theorem logs_tab_shows_rows (df_logs : list LogView) (page_size page : Z)
    (sort_col : column) (ascending : bool) :
  df_logs ≠ [] → 0 < page_size →
  let sdf := sort_values sort_col ascending df_logs in
  ∃ view total_pages events,
    logs_tab_view df_logs page_size page sort_col ascending
    = Ok (view, total_pages, events)
    ∧ total_pages = page_count sdf page_size
    ∧ 1 ≤ Z.of_nat (length view) ≤ page_size
    ∧ view `sublist_of` sdf
    ∧ (page ≤ total_pages →
       events = [] ∧ view = page_view sdf page_size page)
    ∧ (total_pages < page →
       events = [warning_page_reset total_pages]
       ∧ view = page_view sdf page_size 1
       ∧ view = take (Z.to_nat page_size) sdf).
Proof.
  intros Hdf HP sdf.
  assert (sdf ≠ []) as Hsdf.
  { intros Heq. apply (f_equal length) in Heq.
    subst sdf. rewrite sort_values_length in Heq. by destruct df_logs. }
  unfold logs_tab_view. fold sdf. unfold page_count, page_view.
  destruct (paginate_df_nonempty sdf page page_size Hsdf HP)
    as (Hpage & HT & Hceil).
  destruct (paginate_df_nonempty sdf 1 page_size Hsdf HP) as (Hfirst & _).
  set (T := (Z.of_nat (length sdf) + page_size - 1) / page_size) in *.
  rewrite Hpage. simpl.
  destruct (Z.eqb_spec T 0) as [|_]; [lia|]. simpl.
  destruct (Z.gtb_spec page T) as [Hgt|Hle].
  - rewrite Hfirst. simpl. eexists _, _, _. split; [done|].
    replace (Z.to_nat ((Z.max 1 (Z.min 1 T) - 1) * page_size)) with 0%nat
      by lia.
    rewrite drop_0. split; [done|]. split.
    { rewrite length_take. destruct sdf; [done|]. simpl length. lia. }
    split; [apply sublist_take|]. split; [lia|]. done.
  - rewrite Hfirst. eexists _, _, _. split; [done|]. split; [done|]. split.
    { rewrite length_take, length_drop. nia. }
    split; [|split; [done|lia]].
    etrans; [apply sublist_take|apply sublist_drop].
Qed.

Lemma logs_tab_shows_rows_witness :
  select_logs example_db (λ _, true) ≠ []
  ∧ 0 < 2
  ∧ ∃ view,
      logs_tab_view (select_logs example_db (λ _, true)) 2 9 col_Date false
      = Ok (view, 2, [warning_page_reset 2])
      ∧ LogID <$> view = [3; 2].
Proof.
  assert (select_logs example_db (λ _, true) ≠ []) as Hne by done.
  split; [exact Hne|]. split; [lia|].
  destruct (logs_tab_shows_rows (select_logs example_db (λ _, true)) 2 9
              col_Date false Hne ltac:(lia))
    as (view & total_pages & events & Htab & _).
  exists view. revert Htab. vm_compute. intros [= <- <- <-]. done.
Defined.

(** ** Pagination as the Logs tab applies it *)




(** ** Sorting, further *)

Section MsortSorted.
Context {A : Type} (leb : A → A → bool).

Lemma merge_app (l1 l2 : list A) :
  (∀ x y, x ∈ l1 → y ∈ l2 → leb x y = true) → merge leb l1 l2 = l1 ++ l2.
Proof.
  induction l1 as [|x1 l1 IH]; intros Hle; [apply merge_nil_l|].
  destruct l2 as [|x2 l2]; [by rewrite merge_nil_r, app_nil_r|].
  rewrite merge_cons, Hle by (by left). simpl. f_equal.
  apply IH. intros x y Hx Hy. apply Hle; [by right|done].
Qed.

(** Sorting a sorted list changes nothing. *)
Lemma msort_id (l : list A) : StronglySorted leb l → msort leb l = l.
Proof.
  funelim (msort leb l); simp msort; intros Hs; [done..|].
  change (take (Nat.div2 (length (x :: y :: l))) (x :: y :: l))
    with (x :: take (Nat.div2 (length l)) (y :: l)).
  change (drop (Nat.div2 (length (x :: y :: l))) (x :: y :: l))
    with (drop (Nat.div2 (length l)) (y :: l)).
  rewrite <-(take_drop (Nat.div2 (length l)) (y :: l)), app_comm_cons in Hs.
  apply StronglySorted_app in Hs as (Hle & Hs1 & Hs2).
  rewrite H, H0 by done.
  rewrite merge_app.
  - by rewrite <-app_comm_cons, take_drop.
  - intros a b Ha Hb. apply Is_true_true. by apply Hle.
Qed.
End MsortSorted.

Section SortValuesTwice.
Context {A K : Type} `{!EqDecision K} (key : A → option K)
  (leb : K → K → bool).
Hypothesis leb_total : ∀ a b, leb a b = true ∨ leb b a = true.
Hypothesis leb_trans :
  ∀ a b c, leb a b = true → leb b c = true → leb a c = true.

Lemma sort_values_by_keyed (ascending : bool) (df : list A) (x : A) :
  x ∈ (if ascending
       then msort (key_leb key leb) (filter (λ r, is_Some (key r)) df)
       else reverse (msort (key_leb key leb)
                       (reverse (filter (λ r, is_Some (key r)) df)))) →
  is_Some (key x).
Proof.
  destruct ascending.
  - by intros [? _]%msort_elem_of%list_elem_of_filter.
  - by intros [? _]%elem_of_reverse%msort_elem_of%elem_of_reverse
                   %list_elem_of_filter.
Qed.

Lemma sort_values_by_idem (ascending : bool) (df : list A) :
  sort_values_by key leb ascending (sort_values_by key leb ascending df)
  = sort_values_by key leb ascending df.
Proof.
  unfold sort_values_by at 1.
  set (keyed := filter (λ r, is_Some (key r)) df).
  set (nans := filter (λ r, key r = None) df).
  assert (filter (λ r, is_Some (key r)) (sort_values_by key leb ascending df)
          = (if ascending then msort (key_leb key leb) keyed
             else reverse (msort (key_leb key leb) (reverse keyed))))
    as ->.
  { unfold sort_values_by. fold keyed nans.
    rewrite filter_app, (filter_none _ nans), app_nil_r.
    - apply filter_all. intros x. apply sort_values_by_keyed.
    - intros x [Hx _]%list_elem_of_filter [k Hk]. congruence. }
  assert (filter (λ r, key r = None) (sort_values_by key leb ascending df)
          = nans) as ->.
  { unfold sort_values_by. fold keyed nans.
    rewrite filter_app, filter_none; simpl.
    - apply filter_all. by intros x [Hx _]%list_elem_of_filter.
    - intros x [k Hk]%sort_values_by_keyed Hx. congruence. }
  unfold sort_values_by. fold keyed nans. f_equal.
  destruct ascending.
  - apply msort_id, msort_sorted; [apply key_leb_total|apply key_leb_trans];
      done.
  - rewrite reverse_involutive. f_equal.
    apply msort_id, msort_sorted; [apply key_leb_total|apply key_leb_trans];
      done.
Qed.
End SortValuesTwice.

Lemma sort_values_dispatch (by_ : column) :
  ∃ (K : Type) (key : LogView → option K) (leb : K → K → bool)
    (_ : EqDecision K),
    (∀ ascending df,
       sort_values by_ ascending df = sort_values_by key leb ascending df)
    ∧ (∀ a b, leb a b = true ∨ leb b a = true)
    ∧ (∀ a b c, leb a b = true → leb b c = true → leb a c = true)
    ∧ (∀ r, sort_key by_ r = None ↔ key r = None)
    ∧ (∀ x y, col_leb by_ x y = key_leb key leb x y).
Proof.
  destruct by_; unfold sort_values, sort_key, col_leb.
  - exists Z, (λ r, Some (LogID r)), Z.leb, _.
    split; [done|]. split; [apply Z_leb_total|]. split; [apply Z_leb_trans|].
    by split.
  - exists string, (λ r, Some (UserName r)), String.leb, _.
    split; [done|]. split; [apply String.leb_total|].
    split; [apply String_leb_trans|]. by split.
  - exists string, (λ r, Some (ActivityName r)), String.leb, _.
    split; [done|]. split; [apply String.leb_total|].
    split; [apply String_leb_trans|]. by split.
  - exists string, (λ r, Some (Date r)), String.leb, _.
    split; [done|]. split; [apply String.leb_total|].
    split; [apply String_leb_trans|]. by split.
  - exists Qc, (λ r, Some (Quantity r)), Qc_leb, _.
    split; [done|]. split; [apply Qc_leb_total|].
    split; [apply Qc_leb_trans|]. by split.
  - exists Qc, CalculatedEmission, Qc_leb, _.
    split; [done|]. split; [apply Qc_leb_total|].
    split; [apply Qc_leb_trans|]. split; [|done].
    intros r. by destruct (CalculatedEmission r).
  - exists string, City, String.leb, _.
    split; [done|]. split; [apply String.leb_total|].
    split; [apply String_leb_trans|]. split; [|done].
    intros r. by destruct (City r).
  - exists string, Country, String.leb, _.
    split; [done|]. split; [apply String.leb_total|].
    split; [apply String_leb_trans|]. split; [|done].
    intros r. by destruct (Country r).
Qed.

(** X14.  [sort_values] sorts: the sorted frame is the rows of the frame
    that have a value in the sort column, all of them and no others, in
    ascending or in descending order of that value as asked, followed by
    the rows that lack one, in the order they had, in either direction. *)
Theorem sort_values_sorted (by_ : column) (ascending : bool)
    (df : list LogView) :
  ∃ keyed,
    sort_values by_ ascending df
    = keyed ++ filter (λ r, sort_key by_ r = None) df
    ∧ keyed ≡ₚ filter (λ r, is_Some (sort_key by_ r)) df
    ∧ Forall (λ r, is_Some (sort_key by_ r)) keyed
    ∧ Sorted (λ x y, if ascending then col_leb by_ x y else col_leb by_ y x)
        keyed.
Proof.
  destruct (sort_values_dispatch by_)
    as (K & key & leb & HK & Hsort & Htotal & Htrans & Hnone & Hleb).
  rewrite Hsort.
  destruct (sort_values_by_sorted key leb Htotal Htrans ascending df)
    as (keyed & Heq & Hsorted).
  assert (∀ r, is_Some (sort_key by_ r) ↔ is_Some (key r)) as Hsome.
  { intros r. rewrite <-!not_eq_None_Some. by rewrite Hnone. }
  assert (keyed
          = (if ascending
             then msort (key_leb key leb) (filter (λ r, is_Some (key r)) df)
             else reverse (msort (key_leb key leb)
                             (reverse (filter (λ r, is_Some (key r)) df)))))
    as Hkeyed.
  { unfold sort_values_by in Heq. by apply app_inv_tail in Heq. }
  exists keyed. split; [|split; [|split]].
  - rewrite Heq. f_equal. apply list_filter_iff. intros r.
    by rewrite Hnone.
  - rewrite (list_filter_iff _ (λ r, is_Some (key r))) by done.
    rewrite Hkeyed. destruct ascending.
    + apply msort_Permutation.
    + by rewrite reverse_Permutation, msort_Permutation,
        reverse_Permutation.
  - apply Forall_forall. intros r Hr. apply Hsome.
    apply (sort_values_by_keyed key leb ascending df). by rewrite <-Hkeyed.
  - rewrite <-(list_fmap_id keyed).
    eapply (Sorted_fmap id); [|exact Hsorted].
    intros x y. rewrite !Hleb. done.
Qed.

(** X15.  Sorting again by the same column in the same direction changes
    nothing: a frame [sort_values] has sorted is returned as it is. *)
Theorem sort_values_idempotent (by_ : column) (ascending : bool)
    (df : list LogView) :
  sort_values by_ ascending (sort_values by_ ascending df)
  = sort_values by_ ascending df.
Proof.
  destruct (sort_values_dispatch by_)
    as (K & key & leb & HK & Hsort & Htotal & Htrans & _).
  rewrite !Hsort. by apply sort_values_by_idem.
Qed.

(** ** The cache, further *)

(** X16.  A read that misses the cache makes one call to the data access
    layer; the same read repeated less than [ttl] = 30 time units after it
    is answered with the same value and makes no call, and repeated at or
    after that time it makes a new call.  A read with other arguments is
    not answered from the entry. *)
Theorem cached_within_ttl `{Schema} (now0 : Z) (c : read_call) (w : World)
    (v : read_value) :
  cache w !! c = None →
  query (db w) c = Ok v →
  let w1 := (cached now0 c w).2 in
  (cached now0 c w).1 = Ok v
  ∧ calls w1 = calls w ++ [Read c]
  ∧ (∀ now, now < now0 + 30 → cached now c w1 = (Ok v, w1))
  ∧ (∀ now, now0 + 30 ≤ now →
            calls (cached now c w1).2 = calls w1 ++ [Read c])
  ∧ (∀ now c', c' ≠ c → cache w !! c' = None →
               calls (cached now c' w1).2 = calls w1 ++ [Read c']).
Proof.
  intros Hmiss Hq w1.
  assert (cached now0 c w
          = (Ok v, {| db := db w; cache := <[c := (v, now0)]> (cache w);
                      calls := calls w ++ [Read c]; ui := ui w |})) as Hfirst.
  { unfold cached. by rewrite Hmiss, Hq. }
  subst w1. rewrite Hfirst. simpl.
  split; [done|]. split; [done|]. split; [|split].
  - intros now Hnow. apply (cached_hit now now0); [|done].
    simpl. apply lookup_insert_eq.
  - intros now Hnow. unfold cached. simpl. rewrite lookup_insert_eq.
    destruct (Z.ltb_spec now (now0 + ttl)); [unfold ttl in *; lia|done].
  - intros now c' Hne Hmiss'. unfold cached. simpl.
    by rewrite lookup_insert_ne, Hmiss'.
Qed.

Lemma cached_within_ttl_witness :
  cache example_world !! load_users = None
  ∧ query (db example_world) load_users
    = Ok (users_rows (list_users example_db))
  ∧ cached 29 load_users warm_world
    = (Ok (users_rows (list_users example_db)), warm_world)
  ∧ calls (cached 30 load_users warm_world).2
    = calls warm_world ++ [Read load_users].
Proof.
  assert (cache example_world !! load_users = None) as Hmiss by done.
  assert (query (db example_world) load_users
          = Ok (users_rows (list_users example_db))) as Hq by done.
  split; [exact Hmiss|]. split; [exact Hq|].
  destruct (cached_within_ttl 0 load_users example_world _ Hmiss Hq)
    as (_ & _ & Hhit & Hexp & _).
  split; [apply Hhit; lia|apply Hexp; lia].
Defined.

Lemma coherent_cached `{Schema} (now : Z) (c : read_call) (w : World) :
  coherent w →
  coherent (cached now c w).2 ∧ (cached now c w).1 = query (db w) c.
Proof.
  intros Hw. unfold cached.
  assert (coherent
            {| db := db w;
               cache := match query (db w) c with
                        | Ok v => <[c := (v, now)]> (cache w)
                        | Raise _ => cache w
                        end;
               calls := calls w ++ [Read c]; ui := ui w |}) as Hmiss.
  { intros c' v' fetched. simpl.
    destruct (query (db w) c) as [v|e] eqn:Hq; [|apply Hw].
    destruct (decide (c' = c)) as [->|Hne].
    - rewrite lookup_insert_eq. by intros [= <- _].
    - rewrite lookup_insert_ne by done. apply Hw. }
  destruct (cache w !! c) as [[v fetched]|] eqn:Hc; [|done].
  destruct (now <? fetched + ttl); [|done].
  split; [done|]. simpl. symmetry. by eapply Hw.
Qed.

Lemma coherent_handle `{Schema, Builtins} (a : write_action) (w : World) :
  coherent w → coherent (handle a w).
Proof.
  intros Hw. destruct (handle_cache a w) as [Hclear|[Hdb Hcache]].
  - intros c v fetched. by rewrite Hclear, lookup_empty.
  - intros c v fetched. rewrite Hdb, Hcache. apply Hw.
Qed.

Lemma coherent_run `{Schema, Builtins} (xs : list action) (w : World) :
  coherent w → coherent (run xs w).
Proof.
  unfold run. revert w. induction xs as [|x xs IH]; intros w Hw; [done|].
  simpl. apply IH. destruct x as [now c|a]; simpl.
  - by apply coherent_cached.
  - by apply coherent_handle.
Qed.

(** X17.  In a session that starts with a cache holding nothing outdated,
    and in which the database changes only through the four write
    handlers, no read is ever answered with an outdated value: after any
    sequence of reads and writes, a read returns what the data access
    layer answers on the database as it then is. *)
Theorem session_reads_are_current `{Schema, Builtins} (xs : list action)
    (w : World) (now : Z) (c : read_call) :
  coherent w →
  coherent (run xs w)
  ∧ (cached now c (run xs w)).1 = query (db (run xs w)) c.
Proof.
  intros Hw. pose proof (coherent_run xs w Hw) as Hrun.
  split; [done|]. by apply coherent_cached.
Qed.

Lemma session_reads_are_current_witness :
  coherent example_world
  ∧ (cached 2 (load_logs None None None)
       (run [do_read 0 (load_logs None None None); do_write (Delete_log 2);
             do_read 1 load_users] example_world)).1
    = query (db (run [do_read 0 (load_logs None None None);
                      do_write (Delete_log 2); do_read 1 load_users]
                   example_world))
        (load_logs None None None).
Proof.
  assert (coherent example_world) as Hw by (by intros c v fetched).
  split; [exact Hw|].
  exact (proj2 (session_reads_are_current _ example_world 2
                  (load_logs None None None) Hw)).
Defined.

(** X18.  A write the form turns down - a delete with an id that is not
    positive, a user with an empty name, email or password, an import
    without the required columns or without a picked user - does not
    reach the data access layer: no call is made, the database and the
    cache are as before, and one message is shown. *)
Theorem turned_down_writes_change_nothing `{Schema, Builtins}
    (a : write_action) (w : World) :
  turned_down a = true →
  calls (handle a w) = calls w
  ∧ db (handle a w) = db w
  ∧ cache (handle a w) = cache w
  ∧ length (ui (handle a w)) = S (length (ui w)).
Proof.
  destruct a as [u_name u_email u_pass u_goal u_reg
                |ins_user_id activity_id log_date qty location_id
                |del_id
                |picked_user_id df_imp];
    cbn [handle turned_down]; intros Hdown.
  - unfold on_add_user. rewrite Hdown. simpl.
    by rewrite length_app, Nat.add_1_r.
  - done.
  - unfold on_delete. rewrite Hdown. simpl.
    by rewrite length_app, Nat.add_1_r.
  - unfold on_import.
    destruct (negb (bool_decide (valid_cols ⊆ columns df_imp))); simpl.
    + by rewrite length_app, Nat.add_1_r.
    + destruct picked_user_id as [uid|]; simpl in *.
      * done.
      * by rewrite length_app, Nat.add_1_r.
Qed.

Lemma turned_down_writes_change_nothing_witness :
  turned_down (Delete_log 0) = true
  ∧ calls (handle (Delete_log 0) warm_world) = calls warm_world
  ∧ new_events warm_world (handle (Delete_log 0) warm_world)
    = [warning_enter_valid_LogID].
Proof.
  split; [reflexivity|].
  destruct (turned_down_writes_change_nothing (Delete_log 0) warm_world
              eq_refl) as (Hcalls & _).
  split; [exact Hcalls|reflexivity].
Defined.

(** ** Bulk import, further *)

Lemma import_row_db `{Schema, Builtins} (uid : Z) (df1 df2 : frame)
    (r : gmap string cell) (w1 w2 : World) :
  columns df1 = columns df2 → db w1 = db w2 →
  (import_row uid df1 r w1).1 = (import_row uid df2 r w2).1
  ∧ db (import_row uid df1 r w1).2 = db (import_row uid df2 r w2).2.
Proof.
  intros Hcols Hdb. unfold import_row, import_args. rewrite Hcols, Hdb.
  destruct (_ ≫= _) as [[[[a d] q] l]|e]; [|done].
  by destruct (add_log (db w2) uid a d q l).
Qed.

Lemma import_loop_db `{Schema, Builtins} (uid : Z) (df1 df2 : frame)
    (todo : list (gmap string cell)) (inserted : Z) (w1 w2 : World) :
  columns df1 = columns df2 → db w1 = db w2 →
  (import_loop uid df1 todo inserted w1).1
  = (import_loop uid df2 todo inserted w2).1
  ∧ db (import_loop uid df1 todo inserted w1).2
    = db (import_loop uid df2 todo inserted w2).2.
Proof.
  intros Hcols. revert inserted w1 w2.
  induction todo as [|r todo IH]; intros inserted w1 w2 Hdb; [done|].
  simpl. destruct (import_row_db uid df1 df2 r w1 w2 Hcols Hdb) as [Hres Hdb'].
  destruct (import_row uid df1 r w1) as [res1 w1'],
    (import_row uid df2 r w2) as [res2 w2']. simpl in *. subst res2.
  destruct res1 as [[]|ie]; by apply IH.
Qed.

Lemma import_loop_count `{Schema, Builtins} (uid : Z) (df_imp : frame)
    (todo : list (gmap string cell)) (i j : Z) (w : World) :
  db (import_loop uid df_imp todo i w).2
  = db (import_loop uid df_imp todo j w).2.
Proof.
  revert i j w. induction todo as [|r todo IH]; intros i j w; [done|].
  simpl. destruct (import_row uid df_imp r w) as [[[]|ie] w']; apply IH.
Qed.

Lemma on_import_db `{Schema, Builtins} (uid : Z) (df_imp : frame)
    (w : World) :
  db (on_import (Some uid) df_imp w)
  = if bool_decide (valid_cols ⊆ columns df_imp)
    then db (import_loop uid df_imp (rows df_imp) 0 w).2
    else db w.
Proof.
  unfold on_import. destruct (bool_decide _); [|done]. simpl.
  by destruct (import_loop uid df_imp (rows df_imp) 0 w).
Qed.

(** X19.  Importing a file in two parts stores what importing it whole
    stores: for frames with the same columns, the database after an import
    of the rows [rows1 ++ rows2] is the database after an import of
    [rows1] followed by an import of [rows2]. *)
Theorem import_in_two_parts `{Schema, Builtins} (uid : Z)
    (cols : list string) (rows1 rows2 : list (gmap string cell))
    (w : World) :
  db (on_import (Some uid) {| columns := cols; rows := rows1 ++ rows2 |} w)
  = db (on_import (Some uid) {| columns := cols; rows := rows2 |}
          (on_import (Some uid) {| columns := cols; rows := rows1 |} w)).
Proof.
  rewrite !on_import_db. simpl.
  destruct (bool_decide (valid_cols ⊆ cols)) eqn:Hvalid; [|done].
  rewrite import_loop_app.
  destruct (import_loop_db uid {| columns := cols; rows := rows1 ++ rows2 |}
              {| columns := cols; rows := rows1 |} rows1 0 w w eq_refl eq_refl)
    as [_ Hdb1].
  destruct (import_loop uid {| columns := cols; rows := rows1 ++ rows2 |}
              rows1 0 w) as [ins1 w1]. simpl in Hdb1.
  rewrite (import_loop_count uid _ rows2 ins1 0).
  apply import_loop_db; [done|].
  rewrite on_import_db. simpl. by rewrite Hvalid.
Qed.

(** ** The batch, row by row *)

(** [add_log] is reached exactly for the rows whose cells convert, with
    the converted cells as its arguments. *)
Lemma import_args_converts `{Builtins} (df_imp : frame)
    (r : gmap string cell) (a : Z) (d : string) (q : pyfloat)
    (l : option Z) :
  import_args df_imp r = Ok (a, d, q, l) ↔ converts df_imp r a d q l.
Proof.
  unfold import_args, converts, item. split.
  - intros Hargs.
    destruct (r !! "ActivityID") as [ca|]; [|done].
    destruct (r !! "Date") as [cd|];
      [|by cbn in Hargs; destruct (py_int ca)].
    destruct (r !! "Quantity") as [cq|];
      [|by cbn in Hargs; destruct (py_int ca)].
    exists ca, cd, cq. cbn in Hargs.
    destruct (py_int ca) as [a'|]; [|done]. cbn in Hargs.
    destruct (py_float cq) as [q'|]; [|done]. cbn in Hargs.
    destruct (bool_decide_reflect ("LocationID" ∈ columns df_imp))
      as [Hin|Hin].
    + destruct (r !! "LocationID") as [cl|]; [|done]. cbn in Hargs.
      destruct (notna cl) eqn:Hna.
      * destruct (py_int cl) as [n|] eqn:Hn; [|done]. cbn in Hargs.
        inversion Hargs; subst. repeat (split; [done|]).
        right. split; [done|]. exists cl. split; [done|]. right.
        split; [done|]. by exists n.
      * cbn in Hargs. inversion Hargs; subst. repeat (split; [done|]).
        right. split; [done|]. exists cl. split; [done|]. by left.
    + cbn in Hargs. inversion Hargs; subst. repeat (split; [done|]).
      by left.
  - intros (ca & cd & cq & -> & Ha & -> & -> & -> & Hq & Hloc).
    cbn. rewrite Ha. cbn. rewrite Hq. cbn.
    destruct Hloc as [[Hin ->]|(Hin & cl & Hcl & Hloc)].
    + by rewrite bool_decide_false.
    + rewrite bool_decide_true, Hcl by done. cbn.
      destruct Hloc as [[-> ->]|(-> & n & Hn & ->)]; [done|].
      by rewrite Hn.
Qed.

Lemma length_omap_le {A B} (f : A → option B) (l : list A) :
  (length (omap f l) ≤ length l)%nat.
Proof.
  induction l as [|x l IH]; [done|]. cbn [omap list_omap].
  destruct (f x); cbn [length]; lia.
Qed.

Lemma import_row_row_outcome `{Schema, Builtins} (uid : Z) (df_imp : frame)
    (r : gmap string cell) (w : World) :
  row_outcome uid df_imp (db w) r
  = (match (import_row uid df_imp r w).1 with
     | Ok _ => None
     | Raise e => Some e
     end, db (import_row uid df_imp r w).2).
Proof.
  unfold row_outcome, import_row.
  destruct (import_args df_imp r) as [[[[a d] q] l]|e]; [|done].
  by destruct (add_log (db w) uid a d q l) as [[new_id|e] db'].
Qed.

Lemma import_loop_batch `{Schema, Builtins} (uid : Z) (df_imp : frame)
    (todo : list (gmap string cell)) (inserted : Z) (w : World) :
  let out := import_loop uid df_imp todo inserted w in
  let batch := batch_outcomes uid df_imp todo (db w) in
  length batch.1 = length todo
  ∧ out.1 = inserted + (Z.of_nat (length todo)
                        - Z.of_nat (length (omap id batch.1)))
  ∧ ui out.2 = ui w ++ (warning_row_failed <$> omap id batch.1)
  ∧ db out.2 = batch.2
  ∧ Z.of_nat (length (ActivityLogs batch.2))
    = Z.of_nat (length (ActivityLogs (db w)))
      + (Z.of_nat (length todo) - Z.of_nat (length (omap id batch.1))).
Proof.
  revert inserted w. induction todo as [|r todo IH]; intros inserted w.
  { simpl. rewrite app_nil_r. repeat split; lia. }
  cbn [import_loop batch_outcomes].
  rewrite import_row_row_outcome.
  pose proof (import_row_outcome uid df_imp r w) as Hrow.
  destruct (import_row uid df_imp r w) as [[[]|ie] w1];
    destruct Hrow as (Hui & _ & _ & Hdb); cbn [fst snd].
  - specialize (IH (inserted + 1) w1). cbv zeta in IH.
    destruct (batch_outcomes uid df_imp todo (db w1)) as [os s2].
    destruct (import_loop uid df_imp todo (inserted + 1) w1) as [ins' w'].
    cbn [fst snd] in *. destruct IH as (Hlen & Hins & Hui' & Hdb' & Hlogs).
    destruct Hdb as [row Hdb]. rewrite Hdb, length_app in Hlogs.
    cbn [length omap list_omap id] in *.
    rewrite Hui', Hui. split; [lia|]. split; [lia|]. split; [done|]. split; [done|]. lia.
  - specialize (IH inserted (emit (warning_row_failed ie) w1)).
    cbv zeta in IH. change (db (emit (warning_row_failed ie) w1))
      with (db w1) in IH.
    destruct (batch_outcomes uid df_imp todo (db w1)) as [os s2].
    destruct (import_loop uid df_imp todo inserted
                (emit (warning_row_failed ie) w1)) as [ins' w'].
    cbn [fst snd] in *. destruct IH as (Hlen & Hins & Hui' & Hdb' & Hlogs).
    rewrite Hdb in Hlogs. cbn [length omap list_omap id fmap list_fmap] in *.
    rewrite Hui'. simpl. rewrite Hui, <-(assoc_L (++)).
    split; [lia|]. split; [lia|]. split; [done|]. split; [done|]. lia.
Qed.

(** C6.  Bulk import handles the rows of the frame one after the other,
    each on the database the rows before it have left, and none is
    skipped.  [add_log] is called for the selected user once for each row
    whose cells convert, in the order of the rows and with the converted
    cells as arguments; a row whose cells do not convert fails before
    [add_log] is called.  A row that fails, in the conversion or in
    [add_log], adds one warning with its reason and leaves the database as
    it was, and the rows after it are still handled.  For [N] rows of
    which [k] fail, the database ends with [N - k] more logs, the toast
    reports [N - k], the cache is cleared, and the handler ends without
    raising. *)
Theorem import_row_by_row `{Schema, Builtins} (uid : Z) (df_imp : frame)
    (w : World) :
  valid_cols ⊆ columns df_imp →
  let N := Z.of_nat (length (rows df_imp)) in
  let w' := on_import (Some uid) df_imp w in
  let batch := batch_outcomes uid df_imp (rows df_imp) (db w) in
  let reasons := omap id batch.1 in
  let k := Z.of_nat (length reasons) in
  length batch.1 = length (rows df_imp)
  ∧ 0 ≤ k ≤ N
  ∧ new_events w w'
    = (warning_row_failed <$> reasons) ++ [toast_imported (N - k)]
  ∧ db w' = batch.2
  ∧ Z.of_nat (length (ActivityLogs (db w')))
    = Z.of_nat (length (ActivityLogs (db w))) + (N - k)
  ∧ new_calls w w' = omap (row_call uid df_imp) (rows df_imp)
  ∧ (∀ r c,
       row_call uid df_imp r = Some c
       ↔ ∃ a d q l, c = Call_add_log uid a d q l
                    ∧ converts df_imp r a d q l)
  ∧ (∀ r s,
       row_call uid df_imp r = None →
       ∃ e, import_args df_imp r = Raise e
            ∧ row_outcome uid df_imp s r = (Some e, s))
  ∧ (∀ r s a d q l,
       row_call uid df_imp r = Some (Call_add_log uid a d q l) →
       row_outcome uid df_imp s r
       = match add_log s uid a d q l with
         | (Ok _, s') => (None, s')
         | (Raise e, _) => (Some e, s)
         end)
  ∧ cache w' = ∅.
Proof.
  intros Hcols N w' batch reasons k.
  destruct (import_loop_batch uid df_imp (rows df_imp) 0 w)
    as (Hlen & Hins & Hui & Hdb & Hlogs).
  pose proof (import_loop_outcome uid df_imp (rows df_imp) 0 w) as Hloop.
  fold batch in Hlen, Hins, Hui, Hdb, Hlogs.
  fold reasons in Hins, Hui, Hlogs. fold k N in Hins, Hlogs.
  assert (0 ≤ k ≤ N) as Hk.
  { subst k N reasons. split; [lia|]. rewrite <-Hlen.
    apply inj_le, length_omap_le. }
  subst w'. unfold on_import. rewrite bool_decide_true by done. cbn [negb].
  destruct (import_loop uid df_imp (rows df_imp) 0 w) as [inserted w1].
  destruct Hloop as (_ & _ & _ & _ & _ & Hcalls & _).
  cbn [fst snd] in Hins, Hui, Hdb.
  unfold new_events, new_calls.
  change (ui (cache_data_clear (emit (toast_imported inserted) w1)))
    with (ui w1 ++ [toast_imported inserted]).
  change (db (cache_data_clear (emit (toast_imported inserted) w1)))
    with (db w1).
  change (calls (cache_data_clear (emit (toast_imported inserted) w1)))
    with (calls w1).
  rewrite Hui, Hcalls, Hdb, Hins, Z.add_0_l, <-(assoc_L (++)),
    !drop_app_length.
  split; [done|]. split; [done|]. split; [done|]. split; [done|].
  split; [done|]. split; [done|]. split; [|split; [|split; [|done]]].
  - intros r c. unfold row_call. split.
    + destruct (import_args df_imp r) as [[[[a d] q] l]|e] eqn:Hargs;
        [|done].
      intros [= <-]. exists a, d, q, l. split; [done|].
      by apply import_args_converts.
    + intros (a & d & q & l & -> & Hconv).
      apply import_args_converts in Hconv. by rewrite Hconv.
  - intros r s. unfold row_call, row_outcome.
    destruct (import_args df_imp r) as [[[[a d] q] l]|e]; [done|].
    intros _. by exists e.
  - intros r s a d q l. unfold row_call, row_outcome.
    destruct (import_args df_imp r) as [[[[a' d'] q'] l']|e]; [|done].
    intros [= -> -> -> ->].
    pose proof (add_log_outcome s uid a d q l) as Hout.
    destruct (add_log s uid a d q l) as [[new_id|e] s']; [done|].
    by rewrite Hout.
Qed.

Lemma import_row_by_row_witness :
  valid_cols ⊆ columns example_frame
  ∧ new_events example_world (on_import (Some 5) example_frame example_world)
    = [warning_row_failed (ValueError "could not convert string to float");
       toast_imported 2]
  ∧ new_calls example_world (on_import (Some 5) example_frame example_world)
    = [Call_add_log 5 1 "2024-03-01" (FNum (Q2Qc (5 # 2))) None;
       Call_add_log 5 2 "2024-03-03" (FNum 1%Qc) None]
  ∧ Z.of_nat (length (ActivityLogs
                (db (on_import (Some 5) example_frame example_world))))
    = 3 + (3 - 1).
Proof.
  assert (valid_cols ⊆ columns example_frame) as Hcols by by_compute.
  split; [exact Hcols|].
  destruct (import_row_by_row 5 example_frame example_world Hcols)
    as (_ & _ & Hev & _ & Hlogs & Hcalls & _).
  split; [rewrite Hev; reflexivity|].
  split; [rewrite Hcalls; reflexivity|].
  rewrite Hlogs. reflexivity.
Defined.

(** Three rows, the second with a quantity that is no number: [add_log]
    is called twice, not three times; the second row fails in [float]
    before [add_log] is called. *)
Lemma import_bad_row_never_reaches_add_log :
  length (rows example_frame) = 3%nat
  ∧ new_calls example_world (on_import (Some 5) example_frame example_world)
    = [Call_add_log 5 1 "2024-03-01" (FNum (Q2Qc (5 # 2))) None;
       Call_add_log 5 2 "2024-03-03" (FNum 1%Qc) None]
  ∧ length (new_calls example_world
              (on_import (Some 5) example_frame example_world))
    ≠ length (rows example_frame)
  ∧ (∀ r, rows example_frame !! 1%nat = Some r →
          row_call 5 example_frame r = None
          ∧ import_args example_frame r
            = Raise (ValueError "could not convert string to float")).
Proof.
  split; [reflexivity|]. split; [reflexivity|]. split; [by vm_compute|].
  intros r [= <-]. split; reflexivity.
Qed.

(** ** A write, then a read through the cache *)

(** X20.  A log added through the form is shown by the next listing,
    whatever the cache held before: when the insert of "Add Log" returns
    an id and the data are consistent, a following read of all logs at any
    time returns rows that include the new id. *)
Theorem added_log_is_listed `{Schema} (ins_user_id activity_id : Z)
    (log_date : string) (qty : pyfloat) (location_id : option Z)
    (w : World) (new_id now : Z) :
  (add_log (db w) ins_user_id activity_id log_date qty location_id).1
  = Ok new_id →
  consistent
    (db (on_add_log ins_user_id activity_id log_date qty location_id w)) →
  ∃ rows,
    (cached now (load_logs None None None)
       (on_add_log ins_user_id activity_id log_date qty location_id w)).1
    = Ok (logs_rows rows)
    ∧ new_id ∈ LogID <$> rows.
Proof.
  unfold on_add_log.
  destruct (add_log (db w) ins_user_id activity_id log_date qty location_id)
    as [res db'] eqn:Hadd.
  simpl. intros ->. simpl. intros Hdb'.
  apply execute_insert_log_ok in Hadd as (row & Hlogs & Hid & _).
  unfold cached. simpl. rewrite lookup_empty. simpl.
  eexists. split; [done|]. rewrite <-Hid.
  eapply (select_logs_lists db' _ None None None); [done..| |done].
  rewrite Hlogs, elem_of_app, list_elem_of_singleton. by right.
Qed.

Lemma added_log_is_listed_witness :
  (add_log (db warm_world) 5 1 "2024-03-01" (FNum (Q2Qc 3)) None).1 = Ok 4
  ∧ consistent
      (db (on_add_log 5 1 "2024-03-01" (FNum (Q2Qc 3)) None warm_world))
  ∧ ∃ rows,
      (cached 1 (load_logs None None None)
         (on_add_log 5 1 "2024-03-01" (FNum (Q2Qc 3)) None warm_world)).1
      = Ok (logs_rows rows)
      ∧ 4 ∈ LogID <$> rows.
Proof.
  assert ((add_log (db warm_world) 5 1 "2024-03-01" (FNum (Q2Qc 3)) None).1
          = Ok 4) as Hadd by reflexivity.
  assert (consistent
            (db (on_add_log 5 1 "2024-03-01" (FNum (Q2Qc 3)) None
                   warm_world))) as Hdb'.
  { split; try by_compute.
    - apply Forall_forall. by_compute.
    - apply Forall_forall. by_compute. }
  split; [exact Hadd|]. split; [exact Hdb'|].
  exact (added_log_is_listed 5 1 "2024-03-01" (FNum (Q2Qc 3)) None
           warm_world 4 1 Hadd Hdb').
Defined.

(** ** View state in the query string *)

(** X21.  The user taken from the query string is always a listed user:
    [default_user_from_qp] is the number its "user" entry spells when a
    listed user has that id, and [None] in every other case - no entry,
    text that is no number, or an id no listed user has. *)
Theorem default_user_from_qp_listed `{Builtins} (qp : gmap string string)
    (users : list UserView) :
  match default_user_from_qp qp users with
  | Some uid =>
      uid ∈ uv_UserID <$> users
      ∧ ∃ s, qp !! "user" = Some s ∧ int_of_str s = Some uid
  | None =>
      ∀ s uid, qp !! "user" = Some s → int_of_str s = Some uid →
               uid ∉ uv_UserID <$> users
  end.
Proof.
  unfold default_user_from_qp.
  destruct (qp !! "user") as [s|]; [|done].
  destruct (int_of_str s) as [cand|] eqn:Hs;
    [|intros s' uid [= <-] Hp; congruence].
  case_bool_decide as Hex.
  - split; [|by exists s].
    apply Exists_exists in Hex as (u & Hu & <-).
    by apply list_elem_of_fmap_2.
  - intros s' uid [= <-] Huid (u & -> & Hu)%list_elem_of_fmap.
    apply Hex, Exists_exists. exists u. split; [done|]. congruence.
Qed.

(** X22.  The "Apply" button and a reload agree on the user: the query
    string [_query_params_set] writes always holds the two dates, and it
    holds a user exactly when one with an id other than 0 is picked; read
    back by [default_user_from_qp], it gives that user again if the user
    is listed, and no user when none was picked. *)
Theorem query_params_round_trip `{Builtins} (user_id : option Z)
    (dfrom dto : string) (users : list UserView) :
  _query_params_set user_id dfrom dto !! "from" = Some dfrom
  ∧ _query_params_set user_id dfrom dto !! "to" = Some dto
  ∧ (truthy_int user_id = false →
     _query_params_set user_id dfrom dto !! "user" = None
     ∧ default_user_from_qp (_query_params_set user_id dfrom dto) users
       = None)
  ∧ (∀ uid, user_id = Some uid → uid ≠ 0 →
            int_of_str (pretty uid) = Some uid →
            uid ∈ uv_UserID <$> users →
            default_user_from_qp (_query_params_set user_id dfrom dto) users
            = Some uid).
Proof.
  unfold _query_params_set, default_user_from_qp.
  split; [|split; [|split]].
  - by rewrite lookup_insert_ne, lookup_insert_eq.
  - by rewrite lookup_insert_eq.
  - intros ->. by rewrite !lookup_insert_ne, lookup_empty.
  - intros uid -> Hne Hparse Hin.
    assert (truthy_int (Some uid) = true) as ->.
    { simpl. by destruct (Z.eqb_spec uid 0). }
    rewrite !lookup_insert_ne, lookup_insert_eq by done. simpl.
    rewrite Hparse, bool_decide_true; [done|].
    apply list_elem_of_fmap in Hin as (u & -> & Hu).
    apply Exists_exists. by exists u.
Qed.

Lemma query_params_round_trip_witness :
  1 ≠ 0
  ∧ int_of_str (pretty 1) = Some 1
  ∧ 1 ∈ uv_UserID <$> list_users example_db
  ∧ default_user_from_qp
      (_query_params_set (Some 1) "2024-01-01" "2024-01-31")
      (list_users example_db) = Some 1.
Proof.
  assert (1 ∈ uv_UserID <$> list_users example_db) as Hin by by_compute.
  split; [done|]. split; [reflexivity|]. split; [exact Hin|].
  destruct (query_params_round_trip (Some 1) "2024-01-01" "2024-01-31"
              (list_users example_db)) as (_ & _ & _ & Hback).
  exact (Hback 1 eq_refl ltac:(done) eq_refl Hin).
Defined.

Example query_params_user_1 :
  default_user_from_qp (_query_params_set (Some 1) "2024-01-01" "2024-01-31")
    (list_users example_db) = Some 1
  ∧ default_user_from_qp (_query_params_set (Some 2) "2024-01-01" "2024-01-31")
      (list_users example_db) = None
  ∧ default_user_from_qp (_query_params_set None "2024-01-01" "2024-01-31")
      (list_users example_db) = None.
Proof. repeat split. Qed.

(** ** The goal check *)

(** X23.  The goal check of the dashboard makes no call when no user, or
    the user id 0, is picked.  For a picked user and a cache holding
    nothing outdated it shows "goal met" when the scalar of
    [CheckIfUserMetGoal] is truthy, "goal not met" when it is falsy, a
    NULL included, and "no result" only when the function yields no
    row. *)
Theorem goal_check_message `{Schema} (now : Z) (picked_user_id : option Z)
    (year month : Z) (w : World) :
  (truthy_int picked_user_id = false →
   goal_check now picked_user_id year month w = (None, w))
  ∧ (∀ uid, picked_user_id = Some uid → uid ≠ 0 → coherent w →
       (goal_check now picked_user_id year month w).1
       = Some match CheckIfUserMetGoal (db w) uid year month with
              | None => info_no_result
              | Some v =>
                  if py_bool v then success_goal_met
                  else warning_goal_not_met
              end).
Proof.
  unfold goal_check. split; [by intros ->|].
  intros uid -> Hne Hw.
  assert (truthy_int (Some uid) = true) as ->.
  { simpl. by destruct (Z.eqb_spec uid 0). }
  destruct (coherent_cached now (func_goal uid year month) w Hw)
    as [_ Hread].
  simpl default.
  destruct (cached now (func_goal uid year month) w) as [res w'].
  simpl in Hread. rewrite Hread. simpl.
  unfold user_met_goal. rewrite fetchone_goal.
  destruct (CheckIfUserMetGoal (db w) uid year month) as [v|]; [|done].
  simpl. by destruct (py_bool v).
Qed.

Lemma goal_check_message_witness :
  1 ≠ 0
  ∧ coherent example_world
  ∧ CheckIfUserMetGoal (db example_world) 1 2024 1 = Some PNone
  ∧ (goal_check 0 (Some 1) 2024 1 example_world).1
    = Some warning_goal_not_met.
Proof.
  assert (coherent example_world) as Hw by (by intros c v fetched).
  split; [done|]. split; [exact Hw|]. split; [reflexivity|].
  destruct (goal_check_message 0 (Some 1) 2024 1 example_world)
    as [_ Hmsg].
  exact (Hmsg 1 eq_refl ltac:(done) Hw).
Defined.

Example goal_check_null :
  (goal_check 0 (Some 1) 2024 1 example_world).1 = Some warning_goal_not_met
  ∧ (goal_check 0 (Some 5) 2024 1 example_world).1 = Some success_goal_met
  ∧ goal_check 0 (Some 0) 2024 1 example_world = (None, example_world).
Proof. repeat split. Qed.
